(** * SEO topic generator: keyword extraction, scoring, ranking and idea
    generation (src/seo.py, src/seonew.py, src/test.py)

    A shallow embedding of the pure core of the three script variants and the
    properties of the pipeline stated over it.

    Conventions.
    - A Python [str] is a [string]; its characters are 8-bit characters read
      as the code points U+0000..U+00FF (Latin-1), on which [str.lower],
      [str.isupper], [str.split] and the regex classes [\b] and [[a-zA-Z]]
      are written out exactly.
    - A [datetime] is an integer count of microseconds; comparison of
      datetimes is comparison of these integers.
    - [set] is [gset string]; insertion-ordered dictionaries ([Counter]) are
      association lists.
    - A function that an exception can leave returns an [option], [None]
      standing for the exception; a run of [main] ends in an [Outcome].
    - NLTK's stopword list and sentence tokenizer, feedparser and the clock
      are outside the repository and are section variables. *)

From Stdlib Require Import ZArith Ascii String List Lia Bool.
From Stdlib Require Import Sorting.Sorted Sorting.Permutation.
From stdpp Require Import base decidable list gmap strings.

Local Open Scope string_scope.
Local Open Scope list_scope.
Local Open Scope nat_scope.

(* ===================================================================== *)
(** ** Characters and strings *)
(* ===================================================================== *)

Module Text.

Definition code (c : ascii) : N := N_of_ascii c.

Definition between (lo hi : N) (c : ascii) : bool :=
  (N.leb lo (code c) && N.leb (code c) hi)%bool.

(** [[a-z]], [[A-Z]] and [[a-zA-Z]]. *)
Definition is_az (c : ascii) : bool := between 97 122 c.
Definition is_AZ (c : ascii) : bool := between 65 90 c.
Definition is_alpha (c : ascii) : bool := (is_az c || is_AZ c)%bool.

(** [c.isupper()] for one character: A-Z and the Latin-1 capitals. *)
Definition isupper (c : ascii) : bool :=
  (is_AZ c || between 192 214 c || between 216 222 c)%bool.

(** [c.lower()] for one character. *)
Definition lower_char (c : ascii) : ascii :=
  if isupper c then ascii_of_N (code c + 32) else c.

(** [c.isspace()]. *)
Definition isspace (c : ascii) : bool :=
  (between 9 13 c || between 28 32 c
   || N.eqb (code c) 133 || N.eqb (code c) 160)%bool.

(** The regex class [\w] on [str] patterns: alphanumerics and underscore. *)
Definition is_word (c : ascii) : bool :=
  (is_alpha c || between 48 57 c || N.eqb (code c) 95
   || N.eqb (code c) 170 || between 178 179 c || N.eqb (code c) 181
   || between 185 186 c || between 188 190 c
   || between 192 214 c || between 216 246 c || between 248 255 c)%bool.

(** [s.lower()]. *)
Fixpoint lower (s : string) : string :=
  match s with
  | EmptyString => EmptyString
  | String c s' => String (lower_char c) (lower s')
  end.

(** [s.startswith(p)]. *)
Fixpoint startswith (p s : string) : bool :=
  match p, s with
  | EmptyString, _ => true
  | String _ _, EmptyString => false
  | String a p', String b s' => (bool_decide (a = b) && startswith p' s')%bool
  end.

(** [p in s]: [p] occurs in [s] as a contiguous substring. *)
Fixpoint contains (p s : string) : bool :=
  (startswith p s ||
   match s with
   | EmptyString => false
   | String _ s' => contains p s'
   end)%bool.

(** Longest prefix of characters satisfying [p], and what follows it. *)
Fixpoint take_while (p : ascii -> bool) (s : list ascii) : list ascii :=
  match s with
  | c :: s' => if p c then c :: take_while p s' else []
  | [] => []
  end.

Fixpoint drop_while (p : ascii -> bool) (s : list ascii) : list ascii :=
  match s with
  | c :: s' => if p c then drop_while p s' else s
  | [] => []
  end.

(** Maximal runs of characters satisfying [p], left to right. *)
Fixpoint runs (p : ascii -> bool) (s : list ascii) : list (list ascii) :=
  match s with
  | [] => []
  | c :: s' =>
      if p c then
        match s' with
        | c' :: _ =>
            if p c' then
              match runs p s' with
              | w :: ws => (c :: w) :: ws
              | [] => [[c]]
              end
            else [c] :: runs p s'
        | [] => [[c]]
        end
      else runs p s'
  end.

(** [s.split()]: the maximal runs of non-whitespace characters. *)
Definition split (s : string) : list string :=
  map string_of_list_ascii
      (runs (fun c => negb (isspace c)) (list_ascii_of_string s)).

End Text.

(* ===================================================================== *)
(** ** The regular expression [\b[a-zA-Z]{3,}\b] and [re.findall] *)
(* ===================================================================== *)

Module Regex.
Import Text.

Definition word_opt (c : option ascii) : bool :=
  match c with Some c => is_word c | None => false end.

(** [\b] between the character before a position and the one after it. *)
Definition word_boundary (prev next : option ascii) : bool :=
  xorb (word_opt prev) (word_opt next).

(** The greedy repetition [[a-zA-Z]{3,}] has consumed the first [k]
    characters of [s]; try the closing [\b] there and, when it fails, give
    one character back, down to the minimum of three. *)
Fixpoint backtrack (k : nat) (s : list ascii) : option (list ascii) :=
  match k with
  | O => None
  | S k' =>
      if 3 <=? k then
        if word_boundary (last (take k s)) (s !! k) then Some (take k s)
        else backtrack k' s
      else None
  end.

(** One match attempt at a position: [prev] is the character before it,
    [s] the text from it on. *)
Definition match_token (prev : option ascii) (s : list ascii)
  : option (list ascii) :=
  if word_boundary prev (head s)
  then backtrack (length (take_while is_alpha s)) s
  else None.

(** The scan of [re.findall]: attempt a match at every position from left
    to right; after a match resume at its end ([skip] counts the characters
    of the last match still to be passed over). *)
Fixpoint findall_from (skip : nat) (prev : option ascii) (s : list ascii)
  : list (list ascii) :=
  match s with
  | [] => []
  | c :: s' =>
      match skip with
      | S n => findall_from n (Some c) s'
      | O =>
          match match_token prev s with
          | Some tok => tok :: findall_from (length tok - 1) (Some c) s'
          | None => findall_from 0 (Some c) s'
          end
      end
  end.

Definition findall (s : string) : list string :=
  map string_of_list_ascii (findall_from 0 None (list_ascii_of_string s)).

End Regex.

(** [clean_text(text)]: [re.findall(r'\b[a-zA-Z]{3,}\b', text.lower())]. *)
Definition clean_text (text : string) : list string :=
  Regex.findall (Text.lower text).

(* ===================================================================== *)
(** ** Python built-ins used by the scripts *)
(* ===================================================================== *)

Module Py.

Section Sorting.
Context {A K : Type} (key : A -> K) (lt : K -> K -> bool).

(** Put [x], which came before every element of [l] in the input, at its
    place in the descending list [l]: behind the elements with a strictly
    greater key, in front of those with an equal or smaller one. *)
Fixpoint insert_desc (x : A) (l : list A) : list A :=
  match l with
  | [] => [x]
  | y :: l' =>
      if lt (key x) (key y) then y :: insert_desc x l' else x :: l
  end.

(** [sorted(l, key=key, reverse=True)] and [l.sort(key=key, reverse=True)]:
    the stable sort by decreasing key.  Stability fixes the result
    uniquely, so the insertion sort below computes the same list as
    CPython's merge sort. *)
Definition sorted_reverse (l : list A) : list A :=
  foldr insert_desc [] l.
End Sorting.

(** Tuple comparison [(a1, b1) < (a2, b2)] of a [(int, datetime)] key. *)
Definition tuple_lt (k1 k2 : nat * Z) : bool :=
  ((k1.1 <? k2.1) || ((k1.1 =? k2.1) && (k1.2 <? k2.2)%Z))%bool.

(** [collections.Counter]: an insertion-ordered dictionary of counts. *)
Definition counter := list (string * nat).

Fixpoint counter_incr (x : string) (c : counter) : counter :=
  match c with
  | [] => [(x, 1)]
  | (y, n) :: c' =>
      if bool_decide (x = y) then (y, S n) :: c'
      else (y, n) :: counter_incr x c'
  end.

(** [Counter(l)]. *)
Definition Counter (l : list string) : counter :=
  fold_left (fun c x => counter_incr x c) l [].

(** [c[x]]: a missing key counts 0. *)
Fixpoint counter_get (c : counter) (x : string) : nat :=
  match c with
  | [] => 0
  | (y, n) :: c' => if bool_decide (x = y) then n else counter_get c' x
  end.

(** [c.most_common(n)]: [sorted(c.items(), key=itemgetter(1),
    reverse=True)[:n]]. *)
Definition most_common (n : nat) (c : counter) : list (string * nat) :=
  take n (sorted_reverse snd Nat.ltb c).

(** A [for] loop over [xs] whose body may raise: [None] is the exception,
    which ends the loop and leaves the function. *)
Fixpoint for_each {S X : Type} (body : S -> X -> option S) (xs : list X)
    (s : S) : option S :=
  match xs with
  | [] => Some s
  | x :: xs' =>
      match body s x with
      | Some s' => for_each body xs' s'
      | None => None
      end
  end.

(** [sep.join(l)]. *)
Fixpoint join (sep : string) (l : list string) : string :=
  match l with
  | [] => ""
  | [x] => x
  | x :: l' => x +:+ sep +:+ join sep l'
  end.

End Py.

(* ===================================================================== *)
(** ** Configuration and data *)
(* ===================================================================== *)

Definition FEEDS : list string :=
  ["https://blog.hubspot.com/marketing/rss.xml";
   "https://searchengineland.com/feed";
   "https://moz.com/blog/feed";
   "https://backlinko.com/blog/feed";
   "https://www.socialmediaexaminer.com/feed/";
   "https://contentmarketinginstitute.com/feed/";
   "https://neilpatel.com/blog/feed/"].

Definition NUM_ARTICLES_TO_SCAN : nat := 50.
Definition NUM_SUGGESTIONS : nat := 15.

Definition EXTRA_STOPWORDS : gset string :=
  list_to_set
    ["with";"from";"that";"this";"have";"will";"your";"their";"about";"into";
     "more";"been";"also";"over";"some";"what";"when";"where";"which";"using";
     "than";"then";"each";"into";"only";"very";"just";"them";"they";"such";
     "while";"there";"here";"http";"https";"www";"com";"blog";"like";"get";
     "make";"use";"new";"year";"need";"know";"see";"top";"best";"guide";"how";
     "why"].

Definition question_starters : list string :=
  ["How to"; "Why"; "What is"; "The Ultimate Guide to"; "A Beginner's Guide to"].
Definition list_starters : list string :=
  ["Ways to"; "Steps to"; "Effective Strategies for"; "Examples of"].

(** A feed entry as feedparser hands it over.  [e_title] and [e_link] are
    [None] when the entry has no such attribute: reading [entry.title] or
    [entry.link] then raises [AttributeError].  [e_published_parsed] is the
    value of [datetime( *entry.published_parsed[:6])], [None] when evaluating
    it raises; [e_summary] is [None] when the entry has no summary. *)
Record Entry := {
  e_title : option string;
  e_link : option string;
  e_published_parsed : option Z;
  e_summary : option string
}.

(** How a run of [main] ends. *)
Inductive Outcome :=
| Raised
| Returned
| Sent (subject body : string).

(** The article dictionary built by [fetch_and_score_articles]. *)
Record Article := {
  title : string;
  link : string;
  published : Z;
  summary : string;
  keywords : list string;
  score : nat
}.

Definition sort_key (x : Article) : nat * Z := (score x, published x).

(** The return line of [fetch_and_score_articles], the same in the three
    scripts: [sorted(articles, key=lambda x: (x["score"], x["published"]),
    reverse=True)]. *)
Definition ranked (articles : list Article) : list Article :=
  Py.sorted_reverse sort_key Py.tuple_lt articles.

(** [entry.get("summary", default)]. *)
Definition get_summary (e : Entry) (default : string) : string :=
  match e_summary e with Some s => s | None => default end.


(* ===================================================================== *)
(** ** src/seo.py *)
(* ===================================================================== *)

Module Seo.
Section Script.

(** [stopwords.words('english')] of NLTK. *)
Variable nltk_stopwords : gset string.
(** [sent_tokenize] of NLTK; [None] when it raises. *)
Variable sent_tokenize : string -> option (list string).
(** [feedparser.parse(url).entries]. *)
Variable feedparser_parse : string -> list Entry.
(** Successive readings of [datetime.now()]. *)
Variable clock : nat -> Z.

Definition STOPWORDS : gset string := nltk_stopwords ∪ EXTRA_STOPWORDS.

(** [get_existing_blog_keywords]: [page] is the text scraped from the blog,
    [None] when the request fails. *)
Definition get_existing_blog_keywords (page : option string) : gset string :=
  match page with
  | Some full_text =>
      let words := clean_text full_text in
      list_to_set (filter (λ w, w ∉ STOPWORDS) words)
  | None => ∅
  end.

(** The [try: ... except Exception: published_dt = datetime.now()] of the
    loop body; the second component counts the clock readings taken. *)
Definition published_dt (e : Entry) (t : nat) : Z * nat :=
  match e_published_parsed e with
  | Some d => (d, t)
  | None => (clock t, S t)
  end.

(** The dictionary appended for one entry; [None] when [entry.title] or
    [entry.link] raises [AttributeError] (both are read outside the [try]). *)
Definition make_article (company_keywords : gset string) (e : Entry) (dt : Z)
  : option Article :=
  match e_title e with
  | None => None
  | Some entry_title =>
      let text := entry_title +:+ " " +:+ get_summary e "" in
      let words := clean_text text in
      let keywords := filter (λ w, w ∉ STOPWORDS) words in
      let score := size (list_to_set keywords ∩ company_keywords) in
      match e_link e with
      | None => None
      | Some entry_link =>
          Some {| title := entry_title;
                  link := entry_link;
                  published := dt;
                  summary := get_summary e "No summary available.";
                  keywords := keywords;
                  score := score |}
      end
  end.

(** Body of [for entry in feed.entries]. *)
Definition entry_step (company_keywords : gset string)
    (st : list Article * nat) (e : Entry) : option (list Article * nat) :=
  let '(dt, t') := published_dt e st.2 in
  match make_article company_keywords e dt with
  | Some article => Some (st.1 ++ [article], t')
  | None => None
  end.

(** Body of [for url in feeds]. *)
Definition feed_step (company_keywords : gset string)
    (st : list Article * nat) (url : string) : option (list Article * nat) :=
  Py.for_each (entry_step company_keywords) (feedparser_parse url) st.

(** The list [articles] when both loops are done; [None] when an
    [AttributeError] left them. *)
Definition fetched (feeds : list string) (company_keywords : gset string)
  : option (list Article) :=
  match Py.for_each (feed_step company_keywords) feeds ([], 0) with
  | Some st => Some st.1
  | None => None
  end.

(** [None] when the function raises; nothing in it catches the
    [AttributeError]. *)
Definition fetch_and_score_articles (feeds : list string)
    (company_keywords : gset string) : option (list Article) :=
  match fetched feeds company_keywords with
  | Some articles => Some (ranked articles)
  | None => None
  end.

(** [any(starter.lower() in clean_title.lower() for starter in
    question_starters + list_starters)]. *)
Definition title_matches (clean_title : string) : bool :=
  existsb (λ starter, Text.contains (Text.lower starter) (Text.lower clean_title))
          (question_starters ++ list_starters).

(** [len(sent.split())]. *)
Definition word_count (sent : string) : nat := length (Text.split sent).

(** [sent[0].lower() + sent[1:]]; [None] is the [IndexError] on [""]. *)
Definition lower_first (sent : string) : option string :=
  match sent with
  | String c rest => Some (String (Text.lower_char c) rest)
  | EmptyString => None
  end.

(** [for sent in sentences[:2]] with [ideas.append] inside; an exception
    leaves the loop with what was appended so far. *)
Fixpoint sentence_loop (sents : list string) (ideas : list string)
  : list string :=
  match sents with
  | [] => ideas
  | sent :: sents' =>
      if (8 <? word_count sent) && (word_count sent <? 20) then
        match lower_first sent with
        | Some q =>
            sentence_loop sents'
              (ideas ++ ["Why is " +:+ q +:+ " Important for Your Business?"])
        | None => ideas
        end
      else sentence_loop sents' ideas
  end.

(** Body of [for article in articles[:NUM_ARTICLES_TO_SCAN]]. *)
Definition article_step (ideas : list string) (article : Article)
  : list string :=
  let clean_title := title article in
  let ideas :=
    if title_matches clean_title then ideas ++ [clean_title] else ideas in
  match sent_tokenize (summary article) with
  | Some sentences => sentence_loop (take 2 sentences) ideas
  | None => ideas
  end.

Definition generated (articles : list Article) : list string :=
  fold_left article_step (take NUM_ARTICLES_TO_SCAN articles) [].

Definition suggest_seo_topics (articles : list Article) : list string :=
  map fst (Py.most_common NUM_SUGGESTIONS (Py.Counter (generated articles))).

(** The trending keywords computed in [main]. *)
Definition trending_keywords (scored_articles : list Article)
  : list (string * nat) :=
  let all_keywords :=
    concat (map keywords (take NUM_ARTICLES_TO_SCAN scored_articles)) in
  Py.most_common 20 (Py.Counter all_keywords).

(** [" ".join(titles) + " ".join(descriptions)] of
    [get_existing_blog_keywords]. *)
Definition full_text (titles descriptions : list string) : string :=
  Py.join " " titles +:+ Py.join " " descriptions.

(** [build_email_content] (its literals and [strftime] are outside the
    character model) and the date [datetime.now().strftime('%Y-%m-%d')]. *)
Variable build_email_content : list string -> list (string * nat) -> string.
Variable today : string.

(** [main]: [page] is what the blog request returns, the texts of the
    selected title and description elements, [None] when it fails.  The
    run ends with [Sent subject body] when [send_email] is called, with
    [Returned] when [main] returns before that, with [Raised] when the
    [AttributeError] of [fetch_and_score_articles] leaves it. *)
Definition main (page : option (list string * list string)) : Outcome :=
  let company_keywords :=
    get_existing_blog_keywords
      (match page with
       | Some (titles, descriptions) => Some (full_text titles descriptions)
       | None => None
       end) in
  match fetch_and_score_articles FEEDS company_keywords with
  | None => Raised
  | Some scored_articles =>
      let seo_topics := suggest_seo_topics scored_articles in
      let trending_keywords := trending_keywords scored_articles in
      match seo_topics with
      | [] => Returned
      | _ =>
          let email_body := build_email_content seo_topics trending_keywords in
          let subject := "SEO Blog Topics for Abacus Digital - " +:+ today in
          Sent subject email_body
      end
  end.

End Script.
End Seo.

(* ===================================================================== *)
(** ** src/seonew.py *)
(* ===================================================================== *)

Module SeoNew.
Section Script.

Variable nltk_stopwords : gset string.
Variable sent_tokenize : string -> option (list string).
Variable feedparser_parse : string -> list Entry.
Variable clock : nat -> Z.

(** [clean_text], [get_existing_blog_keywords] and
    [fetch_and_score_articles] are the same text as in src/seo.py. *)
Definition STOPWORDS : gset string := Seo.STOPWORDS nltk_stopwords.

Definition fetch_and_score_articles (feeds : list string)
    (company_keywords : gset string) : option (list Article) :=
  Seo.fetch_and_score_articles nltk_stopwords feedparser_parse clock
    feeds company_keywords.

Definition title_matches (clean_title : string) : bool :=
  existsb (λ starter, Text.contains (Text.lower starter) (Text.lower clean_title))
          (question_starters ++ list_starters).

Definition word_count (sent : string) : nat := length (Text.split sent).

(** [sent[0].lower() + sent[1:] if sent and sent[0].isupper() else sent]. *)
Definition lower_first (sent : string) : string :=
  match sent with
  | String c rest =>
      if Text.isupper c then String (Text.lower_char c) rest else sent
  | EmptyString => sent
  end.

(** Body of [for sent in sentences[:2]]. *)
Definition sentence_step (source_link : string)
    (ideas : list (string * string)) (sent : string) : list (string * string) :=
  if (8 <? word_count sent) && (word_count sent <? 20) then
    let q := lower_first sent in
    let idea_text := "Why is " +:+ q +:+ " important for your business?" in
    ideas ++ [(idea_text, source_link)]
  else ideas.

(** Body of [for article in articles[:NUM_ARTICLES_TO_SCAN]].  The article
    dictionaries always carry the key ["link"], so [article.get("link", "#")]
    is the link; [article['title'] or ""] is written out. *)
Definition article_step (ideas : list (string * string)) (article : Article)
  : list (string * string) :=
  let source_link := link article in
  let clean_title :=
    if bool_decide (title article = "") then "" else title article in
  let ideas :=
    if title_matches clean_title then ideas ++ [(clean_title, source_link)]
    else (ideas ++ [("How to " +:+ clean_title, source_link)])
           ++ [("The Ultimate Guide to " +:+ clean_title, source_link)] in
  match sent_tokenize (summary article) with
  | Some sentences => fold_left (sentence_step source_link) (take 2 sentences) ideas
  | None => ideas
  end.

(** The list [ideas] when the loop over the articles is done. *)
Definition generated (articles : list Article) : list (string * string) :=
  fold_left article_step (take NUM_ARTICLES_TO_SCAN articles) [].

(** Body of [for idea, link in ideas] building [unique_ordered] and [seen]. *)
Definition unique_step (counter : Py.counter)
    (st : list (string * string * nat) * gset string) (p : string * string)
  : list (string * string * nat) * gset string :=
  let '(idea, link) := p in
  if bool_decide (idea ∉ st.2)
  then (st.1 ++ [(idea, link, Py.counter_get counter idea)], st.2 ∪ {[idea]})
  else st.

(** [unique_ordered] before it is sorted. *)
Definition unique_ordered (ideas : list (string * string))
  : list (string * string * nat) :=
  let counter := Py.Counter (map fst ideas) in
  (fold_left (unique_step counter) ideas ([], ∅)).1.

(** The lines after the generation loop: count, deduplicate, sort by count,
    cut to [NUM_SUGGESTIONS]. *)
Definition rank_ideas (ideas : list (string * string))
  : list (string * string) :=
  let sorted := Py.sorted_reverse snd Nat.ltb (unique_ordered ideas) in
  map fst (take NUM_SUGGESTIONS sorted).

Definition suggest_seo_topics (articles : list Article)
  : list (string * string) :=
  rank_ideas (generated articles).

Variable build_email_content :
  list (string * string) -> list (string * nat) -> string.
Variable today : string.

(** [main], as in src/seo.py with the suggestions carrying their links. *)
Definition main (page : option (list string * list string)) : Outcome :=
  let company_keywords :=
    Seo.get_existing_blog_keywords nltk_stopwords
      (match page with
       | Some (titles, descriptions) => Some (Seo.full_text titles descriptions)
       | None => None
       end) in
  match fetch_and_score_articles FEEDS company_keywords with
  | None => Raised
  | Some scored_articles =>
      let seo_topics_with_links := suggest_seo_topics scored_articles in
      let trending_keywords := Seo.trending_keywords scored_articles in
      match seo_topics_with_links with
      | [] => Returned
      | _ =>
          let email_body :=
            build_email_content seo_topics_with_links trending_keywords in
          let subject := "SEO Blog Topics for Abacus Digital - " +:+ today in
          Sent subject email_body
      end
  end.

End Script.
End SeoNew.

(* ===================================================================== *)
(** ** src/test.py *)
(* ===================================================================== *)

Module Test.
Section Script.

Variable nltk_stopwords : gset string.
Variable sent_tokenize : string -> option (list string).
Variable feedparser_parse : string -> list Entry.
Variable clock : nat -> Z.

Definition STOPWORDS : gset string := nltk_stopwords ∪ EXTRA_STOPWORDS.

(** As in src/seo.py, but the overlap is only computed for a non-empty
    [company_keywords]. *)
Definition make_article (company_keywords : gset string) (e : Entry) (dt : Z)
  : option Article :=
  match e_title e with
  | None => None
  | Some entry_title =>
      let text := entry_title +:+ " " +:+ get_summary e "" in
      let words := clean_text text in
      let keywords := filter (λ w, w ∉ STOPWORDS) words in
      let overlap_score :=
        if bool_decide (company_keywords ≠ ∅)
        then size (list_to_set keywords ∩ company_keywords)
        else 0 in
      match e_link e with
      | None => None
      | Some entry_link =>
          Some {| title := entry_title;
                  link := entry_link;
                  published := dt;
                  summary := get_summary e "No summary available.";
                  keywords := keywords;
                  score := overlap_score |}
      end
  end.

Definition entry_step (company_keywords : gset string)
    (st : list Article * nat) (e : Entry) : option (list Article * nat) :=
  let '(dt, t') := Seo.published_dt clock e st.2 in
  match make_article company_keywords e dt with
  | Some article => Some (st.1 ++ [article], t')
  | None => None
  end.

Definition feed_step (company_keywords : gset string)
    (st : list Article * nat) (url : string) : option (list Article * nat) :=
  Py.for_each (entry_step company_keywords) (feedparser_parse url) st.

Definition fetched (feeds : list string) (company_keywords : gset string)
  : option (list Article) :=
  match Py.for_each (feed_step company_keywords) feeds ([], 0) with
  | Some st => Some st.1
  | None => None
  end.

Definition fetch_and_score_articles (feeds : list string)
    (company_keywords : gset string) : option (list Article) :=
  match fetched feeds company_keywords with
  | Some articles => Some (ranked articles)
  | None => None
  end.

Definition title_matches (clean_title : string) : bool :=
  existsb (λ starter, Text.contains (Text.lower starter) (Text.lower clean_title))
          (question_starters ++ list_starters).

Definition word_count (sent : string) : nat := length (Text.split sent).

(** [for sent in sentences[:2]]; [None] from [Seo.lower_first] is the
    [IndexError], which ends the loop. *)
Fixpoint sentence_loop (source_link : string) (sents : list string)
    (ideas : list (string * string)) : list (string * string) :=
  match sents with
  | [] => ideas
  | sent :: sents' =>
      if (8 <? word_count sent) && (word_count sent <? 20) then
        match Seo.lower_first sent with
        | Some q =>
            let idea := "Why is " +:+ q +:+ " Important for Your Business?" in
            sentence_loop source_link sents' (ideas ++ [(idea, source_link)])
        | None => ideas
        end
      else sentence_loop source_link sents' ideas
  end.

Definition article_step (ideas : list (string * string)) (article : Article)
  : list (string * string) :=
  let clean_title := title article in
  let ideas :=
    if title_matches clean_title then ideas ++ [(clean_title, link article)]
    else ideas in
  match sent_tokenize (summary article) with
  | Some sentences => sentence_loop (link article) (take 2 sentences) ideas
  | None => ideas
  end.

Definition generated (articles : list Article) : list (string * string) :=
  fold_left article_step (take NUM_ARTICLES_TO_SCAN articles) [].

Definition unique_step (st : list (string * string) * gset string)
    (p : string * string) : list (string * string) * gset string :=
  let '(idea, link) := p in
  if bool_decide (idea ∉ st.2)
  then (st.1 ++ [(idea, link)], st.2 ∪ {[idea]})
  else st.

(** [unique_ideas] when the loop over [ideas] is done. *)
Definition unique_ideas (ideas : list (string * string))
  : list (string * string) :=
  (fold_left unique_step ideas ([], ∅)).1.

Definition suggest_seo_topics (articles : list Article)
  : list (string * string) :=
  take NUM_SUGGESTIONS (unique_ideas (generated articles)).

Variable build_email_content :
  list (string * string) -> list (string * nat) -> string.
Variable today : string.

Definition main (page : option (list string * list string)) : Outcome :=
  let company_keywords :=
    Seo.get_existing_blog_keywords nltk_stopwords
      (match page with
       | Some (titles, descriptions) => Some (Seo.full_text titles descriptions)
       | None => None
       end) in
  match fetch_and_score_articles FEEDS company_keywords with
  | None => Raised
  | Some scored_articles =>
      let seo_topics := suggest_seo_topics scored_articles in
      let trending_keywords := Seo.trending_keywords scored_articles in
      match seo_topics with
      | [] => Returned
      | _ =>
          let email_body := build_email_content seo_topics trending_keywords in
          let subject := "SEO Blog Topics - " +:+ today in
          Sent subject email_body
      end
  end.

End Script.
End Test.

(* ===================================================================== *)
(** ** Predicates used in the statements *)
(* ===================================================================== *)

(** Decreasing key first, the order [Q] among equal keys. *)
Definition lex_desc {A K : Type} (key : A -> K) (lt : K -> K -> bool)
    (Q : A -> A -> Prop) (x y : A) : Prop :=
  lt (key y) (key x) = true ∨ (lt (key x) (key y) = false ∧ Q x y).

(** Descending order of the ranking: higher score first, and among equal
    scores the later [published] first. *)
Definition rank_ge (x y : Article) : Prop :=
  score y < score x ∨ (score x = score y ∧ (published y <= published x)%Z).

(** Articles with score [s] published at [t]. *)
Definition same_rank (s : nat) (t : Z) (x : Article) : bool :=
  (score x =? s) && (published x =? t)%Z.


(** The words of a text in the sense of the regex anchor [\b]: the maximal
    runs of word characters. *)
Definition words_of (s : string) : list string :=
  map string_of_list_ascii (Text.runs Text.is_word (list_ascii_of_string s)).

(** A run of characters made of at least three letters [a-zA-Z] only. *)
Definition letters3 (w : list ascii) : bool :=
  forallb Text.is_alpha w && (3 <=? length w).

(** The words the Normalizer keeps. *)
Definition kept (w : string) : bool := letters3 (list_ascii_of_string w).

(** A lowercase alphabetic token of length at least 3. *)
Definition is_token (w : string) : Prop :=
  3 ≤ String.length w
  ∧ Forall (λ c, Text.is_alpha c = true) (list_ascii_of_string w)
  ∧ Text.lower w = w.

(** [x] stands somewhere in front of [y] in [l]. *)
Definition precedes {A : Type} (x y : A) (l : list A) : Prop :=
  ∃ l1 l2 l3, l = l1 ++ x :: l2 ++ y :: l3.

(** Number of occurrences of the idea text [x] in the generated sequence. *)
Definition occurrences (x : string) (ideas : list (string * string)) : nat :=
  length (filter (λ p, p.1 = x) ideas).

(** Position of the first pair with idea text [x]. *)
Fixpoint first_index (x : string) (ideas : list (string * string)) : nat :=
  match ideas with
  | [] => 0
  | p :: ideas' => if bool_decide (p.1 = x) then 0 else S (first_index x ideas')
  end.

(** [(x, l)] is the first pair of [ideas] with idea text [x]. *)
Definition first_occurrence (x l : string) (ideas : list (string * string))
  : Prop :=
  ∃ pre post, ideas = pre ++ (x, l) :: post ∧ x ∉ map fst pre.

(** Order of the suggestions: more frequent first, and of two equally
    frequent ideas the one generated first. *)
Definition idea_order (ideas : list (string * string))
    (p q : string * string) : Prop :=
  occurrences q.1 ideas < occurrences p.1 ideas
  ∨ (occurrences p.1 ideas = occurrences q.1 ideas
     ∧ first_index p.1 ideas < first_index q.1 ideas).

(** The idea text of an entry [(idea, link, count)] of [unique_ordered]. *)
Definition idea_text (u : string * string * nat) : string := u.1.1.

(** The deduplication loop of src/seonew.py read from the left: what it
    appends for [ideas] when [seen] has been seen; [cnt] is [counter[idea]]. *)
Fixpoint unique_from (cnt : string -> nat) (seen : gset string)
    (ideas : list (string * string)) : list (string * string * nat) :=
  match ideas with
  | [] => []
  | (idea, link) :: ideas' =>
      if bool_decide (idea ∉ seen)
      then (idea, link, cnt idea) :: unique_from cnt (seen ∪ {[idea]}) ideas'
      else unique_from cnt seen ideas'
  end.

(** The number of words of a sentence: its maximal runs of characters that
    are not whitespace. *)
Definition number_of_words (sent : string) : nat :=
  length (Text.runs (λ c, negb (Text.isspace c)) (list_ascii_of_string sent)).

(** A sentence of more than 8 and fewer than 20 words. *)
Definition good_length (sent : string) : Prop :=
  8 < number_of_words sent ∧ number_of_words sent < 20.

#[global] Instance good_length_dec sent : Decision (good_length sent).
Proof. unfold good_length. apply _. Defined.

(** A sentence with its first letter lower-cased if it starts upper-cased. *)
Definition decapitalized (sent : string) : string :=
  match sent with
  | String c rest =>
      if Text.isupper c then String (Text.lower_char c) rest
      else String c rest
  | EmptyString => EmptyString
  end.

(** The question made from a sentence: the question template around the
    sentence with its first letter lower-cased if it is upper-case. *)
Definition question (source_link sent : string) : string * string :=
  ("Why is " +:+ decapitalized sent +:+ " important for your business?",
   source_link).



(** The title ideas of src/seonew.py as the loop body computes them. *)
Definition title_ideas (a : Article) : list (string * string) :=
  if SeoNew.title_matches (title a) then [(title a, link a)]
  else [("How to " +:+ title a, link a);
        ("The Ultimate Guide to " +:+ title a, link a)].

(** The sentences of a summary; none when the tokenizer raises. *)
Definition sentences_of (sent_tokenize : string -> option (list string))
    (a : Article) : list string :=
  match sent_tokenize (summary a) with
  | Some sentences => sentences
  | None => []
  end.

(** An entry with a title and a link. *)
Definition has_title_and_link (e : Entry) : bool :=
  match e_title e, e_link e with
  | Some _, Some _ => true
  | _, _ => false
  end.

(** The article made from an entry that has a title and a link. *)
Definition article_of (nltk_stopwords : gset string)
    (company_keywords : gset string) (e : Entry) (dt : Z) : Article :=
  let entry_title := default "" (e_title e) in
  let keywords :=
    filter (λ w, w ∉ Seo.STOPWORDS nltk_stopwords)
           (clean_text (entry_title +:+ " " +:+ get_summary e "")) in
  {| title := entry_title;
     link := default "" (e_link e);
     published := dt;
     summary := get_summary e "No summary available.";
     keywords := keywords;
     score := size (list_to_set keywords ∩ company_keywords) |}.

(** The two fetch loops read entry by entry: the articles made from the
    entries [es], all with title and link, when [t] clock readings have been
    taken. *)
Fixpoint stamped (nltk_stopwords : gset string) (clock : nat -> Z)
    (company_keywords : gset string) (t : nat) (es : list Entry)
  : list Article :=
  match es with
  | [] => []
  | e :: es' =>
      match e_published_parsed e with
      | Some d =>
          article_of nltk_stopwords company_keywords e d
          :: stamped nltk_stopwords clock company_keywords t es'
      | None =>
          article_of nltk_stopwords company_keywords e (clock t)
          :: stamped nltk_stopwords clock company_keywords (S t) es'
      end
  end.

(** The entries whose timestamp does not parse. *)
Definition unparsed (es : list Entry) : list Entry :=
  filter (λ e, e_published_parsed e = None) es.

(** The distinct elements of [l] outside [seen], in the order of their first
    occurrence. *)
Fixpoint first_seen (seen : gset string) (l : list string) : list string :=
  match l with
  | [] => []
  | x :: l' =>
      if bool_decide (x ∉ seen) then x :: first_seen (seen ∪ {[x]}) l'
      else first_seen seen l'
  end.

(** Number of occurrences of [x] in [l]. *)
Definition count (x : string) (l : list string) : nat :=
  length (filter (λ y, y = x) l).

(** Position of the first occurrence of [x] in [l]. *)
Fixpoint index_of (x : string) (l : list string) : nat :=
  match l with
  | [] => 0
  | y :: l' => if bool_decide (y = x) then 0 else S (index_of x l')
  end.

(** The question template of src/seo.py and src/test.py. *)
Definition question_seo (sent : string) : string :=
  "Why is " +:+ decapitalized sent +:+ " Important for Your Business?".

(* ===================================================================== *)
(** ** A concrete environment for worked examples *)
(* ===================================================================== *)

Module Demo.

(** A few of NLTK's English stopwords. *)
Definition stopwords : gset string :=
  list_to_set ["the"; "and"; "for"; "are"; "you"; "can"; "all"; "its"].

(** A stand-in for [sent_tokenize]: a sentence ends at a period, blanks in
    front of a sentence are dropped. *)
Fixpoint sentences_from (cur : list ascii) (s : list ascii)
  : list (list ascii) :=
  match s with
  | [] => match cur with [] => [] | _ => [rev cur] end
  | c :: s' =>
      if bool_decide (c = "."%char) then rev (c :: cur) :: sentences_from [] s'
      else if bool_decide (c = " "%char) && bool_decide (cur = [])
           then sentences_from [] s'
           else sentences_from (c :: cur) s'
  end.

Definition sent_tokenize (text : string) : option (list string) :=
  Some (map string_of_list_ascii (sentences_from [] (list_ascii_of_string text))).

Definition dated : Entry :=
  {| e_title := Some "Content marketing trends";
     e_link := Some "https://example.org/dated";
     e_published_parsed := Some 100%Z;
     e_summary := Some "Marketing teams plan content." |}.

Definition undated : Entry :=
  {| e_title := Some "Content marketing basics";
     e_link := Some "https://example.org/undated";
     e_published_parsed := None;
     e_summary := None |}.

Definition feedparser_parse (url : string) : list Entry :=
  if bool_decide (url = "https://example.org/feed") then [dated; undated]
  else [].

Definition clock (t : nat) : Z := (200 + Z.of_nat t)%Z.

Definition feeds : list string := ["https://example.org/feed"].

Definition company_keywords : gset string :=
  list_to_set ["content"; "marketing"].

Definition dated_article : Article :=
  {| title := "Content marketing trends";
     link := "https://example.org/dated";
     published := 100%Z;
     summary := "Marketing teams plan content.";
     keywords := ["content"; "marketing"; "trends"; "marketing"; "teams";
                  "plan"; "content"];
     score := 2 |}.

Definition undated_article : Article :=
  {| title := "Content marketing basics";
     link := "https://example.org/undated";
     published := 200%Z;
     summary := "No summary available.";
     keywords := ["content"; "marketing"; "basics"];
     score := 2 |}.

(** An article whose title contains the lead phrase "Ways to"; its summary
    has sentences of 8, 9 and 10 words. *)
Definition listicle : Article :=
  {| title := "5 Ways to Improve Your SEO";
     link := "https://example.org/ways";
     published := 100%Z;
     summary := "One two three four five six seven eight. Good content brings new readers to your site daily. This third sentence of ten words is never looked at.";
     keywords := [];
     score := 0 |}.

(** An article whose title contains no lead phrase. *)
Definition plain : Article :=
  {| title := "Content marketing basics";
     link := "https://example.org/plain";
     published := 100%Z;
     summary := "Short summary.";
     keywords := [];
     score := 0 |}.

(** Ideas as generated: the second text occurs twice. *)
Definition ideas : list (string * string) :=
  [("Content Audit Steps", "https://example.org/1");
   ("How to Boost Organic Traffic", "https://example.org/2");
   ("How to Boost Organic Traffic", "https://example.org/3")].

(** A second entry without a usable timestamp, and a feed with both. *)
Definition undated_too : Entry :=
  {| e_title := Some "Email outreach basics";
     e_link := Some "https://example.org/undated-too";
     e_published_parsed := None;
     e_summary := None |}.

Definition feedparser_undated (url : string) : list Entry :=
  if bool_decide (url = "https://example.org/feed")
  then [undated; dated; undated_too]
  else [].

(** No feed has an entry. *)
Definition feedparser_nothing (url : string) : list Entry := [].

(** An entry without a title, and a feed that has it after a good entry. *)
Definition untitled : Entry :=
  {| e_title := None;
     e_link := Some "https://example.org/untitled";
     e_published_parsed := Some 300%Z;
     e_summary := Some "An item that carries no title." |}.

Definition feedparser_untitled (url : string) : list Entry :=
  if bool_decide (url = "https://example.org/feed") then [dated; untitled]
  else [].

(** A dated entry that is later than every reading of the clock used in
    the examples. *)
Definition postdated : Entry :=
  {| e_title := Some "Content marketing outlook";
     e_link := Some "https://example.org/postdated";
     e_published_parsed := Some 900%Z;
     e_summary := None |}.

(** Every feed of [FEEDS] has the dated entry. *)
Definition feedparser_everywhere (url : string) : list Entry := [dated].

(** Three articles whose titles contain lead phrases; the last two have the
    same title. *)
Definition audit : Article :=
  {| title := "Steps to Audit Content";
     link := "https://example.org/1";
     published := 100%Z;
     summary := "Short summary.";
     keywords := [];
     score := 0 |}.

Definition traffic : Article :=
  {| title := "How to Boost Organic Traffic";
     link := "https://example.org/2";
     published := 100%Z;
     summary := "Short summary.";
     keywords := [];
     score := 0 |}.

Definition traffic_again : Article :=
  {| title := "How to Boost Organic Traffic";
     link := "https://example.org/3";
     published := 100%Z;
     summary := "Short summary.";
     keywords := [];
     score := 0 |}.

End Demo.

(* ===================================================================== *)
(** ** Facts about the stable descending sort *)
(* ===================================================================== *)

Lemma StronglySorted_weaken {A} (R S : A -> A -> Prop) (l : list A) :
  (∀ x y, R x y → S x y) → StronglySorted R l → StronglySorted S l.
Proof.
  intros HRS. induction 1 as [|x l _ IH Hx]; constructor; [done|].
  eapply Forall_impl; [exact Hx|]. intros y. apply HRS.
Qed.

Lemma StronglySorted_weaken_in {A} (R S : A -> A -> Prop) (l : list A) :
  (∀ x y, x ∈ l → y ∈ l → R x y → S x y) →
  StronglySorted R l → StronglySorted S l.
Proof.
  intros HRS Hs. induction Hs as [|x l _ IH Hx]; constructor.
  - apply IH. intros y z Hy Hz. apply HRS; by right.
  - rewrite Forall_forall in Hx |- *. intros y Hy.
    apply HRS; [by left|by right|by apply Hx].
Qed.

Lemma StronglySorted_take {A} (R : A -> A -> Prop) n (l : list A) :
  StronglySorted R l → StronglySorted R (take n l).
Proof.
  intros Hs. revert n. induction Hs as [|x l _ IH Hx]; intros n.
  { destruct n; constructor. }
  destruct n as [|n]; cbn [take]; constructor; [apply IH|].
  rewrite Forall_forall in Hx |- *. intros y Hy. apply Hx.
  rewrite <- (take_drop n l). apply elem_of_app. by left.
Qed.

Lemma StronglySorted_map {A B} (f : A -> B) (R : B -> B -> Prop) (l : list A) :
  StronglySorted (λ x y, R (f x) (f y)) l → StronglySorted R (map f l).
Proof.
  induction 1 as [|x l _ IH Hx]; cbn [map]; constructor; [done|].
  apply Forall_forall. intros y Hy.
  apply list_elem_of_fmap in Hy as (z & -> & Hz).
  exact (proj1 (Forall_forall _ _) Hx z Hz).
Qed.

Section SortingFacts.
Context {A K : Type} (key : A -> K) (lt : K -> K -> bool).

#[local] Abbreviation ins := (Py.insert_desc key lt).
#[local] Abbreviation srt := (Py.sorted_reverse key lt).

Lemma insert_desc_perm x l : Permutation (ins x l) (x :: l).
Proof.
  induction l as [|y l IH]; simpl; [reflexivity|].
  destruct (lt (key x) (key y)); [|reflexivity].
  rewrite IH. apply perm_swap.
Qed.

Lemma sorted_reverse_perm l : Permutation (srt l) l.
Proof.
  induction l as [|x l IH]; simpl; [constructor|].
  rewrite insert_desc_perm. by constructor.
Qed.

(** Elements that [p] selects have pairwise unordered keys: their relative
    order survives an insertion, hence the whole sort. *)
Lemma insert_desc_filter (p : A -> bool) x l :
  (∀ a b, p a = true → p b = true → lt (key a) (key b) = false) →
  List.filter p (ins x l) = List.filter p (x :: l).
Proof.
  intros Hp. induction l as [|y l IH]; [done|]. cbn [Py.insert_desc].
  destruct (lt (key x) (key y)) eqn:Hxy; [|done].
  cbn [List.filter] in *. rewrite IH.
  destruct (p x) eqn:Hx, (p y) eqn:Hy; try done.
  rewrite (Hp x y Hx Hy) in Hxy. done.
Qed.

Lemma sorted_reverse_filter (p : A -> bool) l :
  (∀ a b, p a = true → p b = true → lt (key a) (key b) = false) →
  List.filter p (srt l) = List.filter p l.
Proof.
  intros Hp. induction l as [|x l IH]; [done|].
  cbn [Py.sorted_reverse foldr]. rewrite insert_desc_filter by done.
  cbn [List.filter]. fold (srt l). by rewrite IH.
Qed.

Hypothesis lt_asym : ∀ a b, lt a b = true → lt b a = false.
Hypothesis lt_negtrans :
  ∀ a b c, lt a c = true → lt a b = true ∨ lt b c = true.

(** Sorting a list that is already ordered by [Q] orders it by decreasing
    key first and by [Q] among equal keys. *)
Lemma insert_desc_lex (Q : A -> A -> Prop) x l :
  StronglySorted (lex_desc key lt Q) l → Forall (Q x) l →
  StronglySorted (lex_desc key lt Q) (ins x l).
Proof.
  induction l as [|y l IH]; intros Hs Hq; cbn [Py.insert_desc].
  { repeat constructor. }
  apply StronglySorted_inv in Hs as [Hs Hy].
  apply Forall_cons in Hq as [Hqy Hq].
  destruct (lt (key x) (key y)) eqn:Hxy.
  - constructor; [by apply IH|].
    eapply Permutation_Forall; [symmetry; apply insert_desc_perm|].
    constructor; [by left|done].
  - constructor; [by constructor|].
    constructor; [by right|].
    rewrite Forall_forall in Hy, Hq |- *. intros z Hz. right. split.
    + destruct (lt (key x) (key z)) eqn:Hxz; [|done].
      destruct (lt_negtrans _ (key y) _ Hxz) as [H|H]; [congruence|].
      destruct (Hy z Hz) as [H'|[H' _]]; [|congruence].
      apply lt_asym in H'. congruence.
    + by apply Hq.
Qed.

Lemma sorted_reverse_lex (Q : A -> A -> Prop) l :
  StronglySorted Q l → StronglySorted (lex_desc key lt Q) (srt l).
Proof.
  induction l as [|x l IH]; intros Hs; cbn [Py.sorted_reverse foldr].
  { constructor. }
  apply StronglySorted_inv in Hs as [Hs Hx].
  apply insert_desc_lex; [by apply IH|].
  eapply Permutation_Forall; [symmetry; apply sorted_reverse_perm|done].
Qed.

Lemma sorted_reverse_sorted l :
  StronglySorted (λ x y, lt (key x) (key y) = false) (srt l).
Proof.
  assert (Ht : StronglySorted (λ _ _ : A, True) l).
  { induction l; constructor; [done|]. by apply Forall_forall. }
  apply (sorted_reverse_lex _ l) in Ht.
  eapply StronglySorted_weaken; [|exact Ht].
  intros x y [H|[H _]]; [by apply lt_asym|done].
Qed.

End SortingFacts.

(* ===================================================================== *)
(** ** Article ranking *)
(* ===================================================================== *)

Lemma tuple_lt_spec (a b : nat * Z) :
  Py.tuple_lt a b = true ↔ a.1 < b.1 ∨ (a.1 = b.1 ∧ (a.2 < b.2)%Z).
Proof.
  unfold Py.tuple_lt.
  rewrite orb_true_iff, andb_true_iff, Nat.ltb_lt, Nat.eqb_eq, Z.ltb_lt.
  done.
Qed.

Lemma tuple_lt_false (a b : nat * Z) :
  Py.tuple_lt a b = false ↔ b.1 < a.1 ∨ (a.1 = b.1 ∧ (b.2 <= a.2)%Z).
Proof.
  rewrite <- not_true_iff_false, tuple_lt_spec. lia.
Qed.

Lemma tuple_lt_asym (a b : nat * Z) :
  Py.tuple_lt a b = true → Py.tuple_lt b a = false.
Proof. rewrite tuple_lt_spec, tuple_lt_false. lia. Qed.

Lemma tuple_lt_negtrans (a b c : nat * Z) :
  Py.tuple_lt a c = true → Py.tuple_lt a b = true ∨ Py.tuple_lt b c = true.
Proof. rewrite !tuple_lt_spec. lia. Qed.

Lemma ranked_sorted (articles : list Article) :
  StronglySorted rank_ge (ranked articles).
Proof.
  eapply StronglySorted_weaken;
    [|apply sorted_reverse_sorted;
      [apply tuple_lt_asym | apply tuple_lt_negtrans]].
  intros x y H. apply tuple_lt_false in H. exact H.
Qed.

Lemma ranked_perm (articles : list Article) :
  Permutation (ranked articles) articles.
Proof. apply sorted_reverse_perm. Qed.

(** C4. Ranking returns a permutation of its input (no article is dropped),
    sorted descending by score and then by published timestamp (most recent
    first), and it is stable: the articles of any one score and published
    timestamp come out in the order in which they went in. *)
Theorem ranked_is_stable_descending_permutation (articles : list Article) :
  Permutation (ranked articles) articles
  ∧ StronglySorted rank_ge (ranked articles)
  ∧ ∀ s t, List.filter (same_rank s t) (ranked articles)
           = List.filter (same_rank s t) articles.
Proof.
  split; [apply ranked_perm|]. split; [apply ranked_sorted|].
  intros s t. apply sorted_reverse_filter.
  intros a b Ha Hb. unfold same_rank in *.
  apply andb_true_iff in Ha as [Ha1 Ha2], Hb as [Hb1 Hb2].
  apply Nat.eqb_eq in Ha1, Hb1. apply Z.eqb_eq in Ha2, Hb2.
  apply tuple_lt_false. unfold sort_key. simpl. lia.
Qed.

(* ===================================================================== *)
(** ** The Normalizer: [clean_text] *)
(* ===================================================================== *)

Section CharFacts.
Import Text.

Ltac all_chars c :=
  destruct c as [[] [] [] [] [] [] [] []]; vm_compute; try done; auto.

Lemma alpha_is_word c : is_alpha c = true → is_word c = true.
Proof. all_chars c. Qed.

Lemma lower_char_not_AZ c : is_AZ (lower_char c) = false.
Proof. all_chars c. Qed.

Lemma lower_char_fixes c :
  is_alpha c = true → is_AZ c = false → lower_char c = c.
Proof. all_chars c. Qed.

Lemma lower_char_idemp c : lower_char (lower_char c) = lower_char c.
Proof. all_chars c. Qed.

End CharFacts.

Section RunFacts.
Import Text.
Variable p : ascii -> bool.

Lemma take_drop_while s : take_while p s ++ drop_while p s = s.
Proof. induction s as [|c s IH]; simpl; [done|]. destruct (p c); simpl; by f_equal. Qed.

Lemma take_while_all s : Forall (λ c, p c = true) (take_while p s).
Proof.
  induction s as [|c s IH]; simpl; [constructor|].
  destruct (p c) eqn:E; by constructor.
Qed.

Lemma drop_while_head s : from_option p false (head (drop_while p s)) = false.
Proof.
  induction s as [|c s IH]; simpl; [done|]. destruct (p c) eqn:E; simpl; done.
Qed.

Lemma drop_take_while s : drop (length (take_while p s)) s = drop_while p s.
Proof.
  induction s as [|c s IH]; simpl; [done|]. destruct (p c); simpl; done.
Qed.

Lemma take_take_while s : take (length (take_while p s)) s = take_while p s.
Proof.
  induction s as [|c s IH]; simpl; [done|]. destruct (p c); simpl; by f_equal.
Qed.

Lemma drop_while_idemp s : drop_while p (drop_while p s) = drop_while p s.
Proof.
  induction s as [|c s IH]; simpl; [done|].
  destruct (p c) eqn:E; simpl; [done|]. by rewrite E.
Qed.

(** The defining equations of [runs]. *)
Lemma runs_cons_out c s : p c = false → runs p (c :: s) = runs p s.
Proof. intros Hc. simpl. by rewrite Hc. Qed.

Lemma runs_cons_in c s :
  p c = true →
  runs p (c :: s) = (c :: take_while p s) :: runs p (drop_while p s).
Proof.
  revert c. induction s as [|c' s IH]; intros c Hc.
  { simpl. by rewrite Hc. }
  specialize (IH c').
  change (runs p (c :: c' :: s)) with
    (if p c then
       if p c' then
         match runs p (c' :: s) with
         | w :: ws => (c :: w) :: ws
         | [] => [[c]]
         end
       else [c] :: runs p (c' :: s)
     else runs p (c' :: s)).
  rewrite Hc. cbn [take_while drop_while].
  destruct (p c') eqn:Hc'.
  - by rewrite IH.
  - done.
Qed.

Lemma runs_unfold2 c c' s :
  runs p (c :: c' :: s) =
  if p c then
    if p c' then
      match runs p (c' :: s) with
      | w :: ws => (c :: w) :: ws
      | [] => [[c]]
      end
    else [c] :: runs p (c' :: s)
  else runs p (c' :: s).
Proof. reflexivity. Qed.

Lemma runs_concat s : concat (runs p s) = List.filter p s.
Proof.
  induction s as [|c s IH]; [done|].
  destruct s as [|c' s'].
  { simpl. by destruct (p c). }
  rewrite runs_unfold2.
  change (List.filter p (c :: c' :: s'))
    with (if p c then c :: List.filter p (c' :: s')
          else List.filter p (c' :: s')).
  destruct (p c); [|exact IH].
  destruct (p c') eqn:E.
  - destruct (runs p (c' :: s')) as [|w ws] eqn:R.
    + cbn [List.filter] in IH. rewrite E in IH. discriminate.
    + rewrite <- IH. reflexivity.
  - rewrite <- IH. reflexivity.
Qed.

Lemma runs_elem s w c : w ∈ runs p s → c ∈ w → c ∈ s.
Proof.
  intros Hw Hc.
  apply list_elem_of_In in Hw, Hc. apply list_elem_of_In.
  assert (Hin : In c (concat (runs p s))).
  { apply in_concat. eauto. }
  rewrite runs_concat in Hin. by apply filter_In in Hin as [Hin _].
Qed.

End RunFacts.

Section MatchFacts.
Import Text Regex.

#[local] Abbreviation letters s := (take_while is_alpha s).

Lemma letters_lookup s i :
  i < length (letters s) → ∃ c, s !! i = Some c ∧ is_alpha c = true.
Proof.
  revert i. induction s as [|c s IH]; intros i Hi; simpl in *; [lia|].
  destruct (is_alpha c) eqn:E; simpl in *; [|lia].
  destruct i as [|i]; [eauto|]. apply IH. lia.
Qed.

Lemma letters_length s : length (letters s) ≤ length s.
Proof.
  rewrite <- (take_drop_while is_alpha s) at 2. rewrite length_app. lia.
Qed.

Lemma backtrack_S k s :
  backtrack (S k) s =
  if 3 <=? S k then
    if word_boundary (last (take (S k) s)) (s !! S k) then Some (take (S k) s)
    else backtrack k s
  else None.
Proof. reflexivity. Qed.

Lemma last_take_S k (s : list ascii) :
  k < length s → last (take (S k) s) = s !! k.
Proof.
  intros Hk. rewrite last_lookup, length_take_le by lia. simpl.
  apply lookup_take_lt. lia.
Qed.

(** Giving characters back never helps: inside the run of letters both sides
    of the position are word characters. *)
Lemma backtrack_short k s :
  k < length (letters s) → backtrack k s = None.
Proof.
  induction k as [|k IH]; intros Hk; [done|].
  rewrite backtrack_S. destruct (3 <=? S k); [|done].
  pose proof (letters_length s).
  rewrite last_take_S by lia.
  destruct (letters_lookup s k) as (a & -> & Ha); [lia|].
  destruct (letters_lookup s (S k)) as (b & -> & Hb); [lia|].
  unfold word_boundary. simpl.
  rewrite (alpha_is_word a), (alpha_is_word b) by done. simpl.
  apply IH. lia.
Qed.

Lemma lookup_letters_end s :
  s !! length (letters s) = head (drop_while is_alpha s).
Proof.
  rewrite <- drop_take_while, head_lookup, lookup_drop. f_equal. lia.
Qed.

Lemma backtrack_full s :
  backtrack (length (letters s)) s =
  if (3 <=? length (letters s))
     && negb (word_opt (head (drop_while is_alpha s)))
  then Some (letters s) else None.
Proof.
  destruct (length (letters s)) as [|k] eqn:Hlen; [done|].
  rewrite backtrack_S. destruct (3 <=? S k); [|done]. cbn [andb].
  pose proof (letters_length s).
  rewrite last_take_S by lia.
  destruct (letters_lookup s k) as (a & -> & Ha); [lia|].
  rewrite <- Hlen, lookup_letters_end, take_take_while.
  unfold word_boundary. cbn [word_opt]. rewrite (alpha_is_word a) by done.
  cbn [xorb].
  destruct (word_opt (head (drop_while is_alpha s))); cbn [negb]; [|done].
  apply backtrack_short. lia.
Qed.

Lemma word_run_letters s :
  take_while is_word s
  = letters s ++ take_while is_word (drop_while is_alpha s).
Proof.
  induction s as [|c s IH]; [done|]. cbn [take_while drop_while].
  destruct (is_alpha c) eqn:E; [|done].
  rewrite (alpha_is_word c) by done. simpl. by f_equal.
Qed.

Lemma forallb_letters s : forallb is_alpha (letters s) = true.
Proof.
  apply forallb_forall. intros c Hc.
  pose proof (take_while_all is_alpha s) as H.
  rewrite Forall_forall in H. apply H. by apply list_elem_of_In.
Qed.

(** At the start of a word the pattern matches exactly when the whole word
    is made of at least three letters, and then it matches all of it. *)
Lemma match_token_word_start prev c s :
  word_opt prev = false → is_word c = true →
  match_token prev (c :: s) =
  if letters3 (take_while is_word (c :: s))
  then Some (take_while is_word (c :: s)) else None.
Proof.
  intros Hprev Hc. unfold match_token, word_boundary.
  cbn [head word_opt]. rewrite Hprev, Hc. cbn [xorb].
  rewrite backtrack_full, word_run_letters.
  unfold letters3. rewrite forallb_app, length_app, forallb_letters.
  cbn [andb].
  pose proof (drop_while_head is_alpha (c :: s)) as Hr.
  destruct (drop_while is_alpha (c :: s)) as [|d r'];
    cbn [head word_opt take_while].
  { rewrite app_nil_r. cbn [negb forallb length]. rewrite Nat.add_0_r.
    rewrite andb_true_r. done. }
  simpl in Hr. destruct (is_word d) eqn:Hd; cbn [negb].
  - cbn [forallb]. rewrite Hr. cbn [andb]. by rewrite andb_false_r.
  - rewrite app_nil_r. cbn [forallb length]. rewrite Nat.add_0_r, andb_true_r.
    done.
Qed.

(** Inside or right after a word no match starts. *)
Lemma match_token_after_word p s :
  is_word p = true → match_token (Some p) s = None.
Proof.
  intros Hp. unfold match_token, word_boundary. cbn [word_opt]. rewrite Hp.
  destruct s as [|c s]; [done|]. cbn [head word_opt].
  destruct (is_word c) eqn:Hc; cbn [xorb]; [done|].
  cbn [take_while].
  destruct (is_alpha c) eqn:Ha; [|done].
  apply alpha_is_word in Ha. congruence.
Qed.

Lemma match_token_nonword prev c s :
  word_opt prev = false → is_word c = false →
  match_token prev (c :: s) = None.
Proof.
  intros Hprev Hc. unfold match_token, word_boundary.
  cbn [head word_opt]. by rewrite Hprev, Hc.
Qed.

#[local] Abbreviation good_words s := (List.filter letters3 (runs is_word s)).

Lemma findall_from_words s :
  (∀ p, is_word p = true →
        findall_from 0 (Some p) s = good_words (drop_while is_word s))
  ∧ (∀ prev, word_opt prev = false → findall_from 0 prev s = good_words s)
  ∧ (∀ n prev, Forall (λ c, is_word c = true) (take (S n) s) →
        findall_from (S n) prev s
        = good_words (drop_while is_word (drop (S n) s))).
Proof.
  induction s as [|c s (IHA & IHC & IHD)]; [done|].
  split; [|split].
  - intros p Hp. cbn [findall_from drop_while].
    rewrite match_token_after_word by done.
    destruct (is_word c) eqn:Hc.
    + by apply IHA.
    + rewrite runs_cons_out by done. by apply IHC.
  - intros prev Hprev. cbn [findall_from].
    destruct (is_word c) eqn:Hc.
    + rewrite match_token_word_start, runs_cons_in by done.
      cbn [take_while List.filter]. rewrite Hc.
      destruct (letters3 (c :: take_while is_word s)) eqn:Hgood.
      * f_equal. cbn [length]. rewrite Nat.sub_succ, Nat.sub_0_r.
        destruct (length (take_while is_word s)) as [|n] eqn:Hn.
        -- by apply IHA.
        -- rewrite IHD.
           ++ by rewrite <- Hn, drop_take_while, drop_while_idemp.
           ++ rewrite <- Hn, take_take_while. apply take_while_all.
      * by apply IHA.
    + rewrite match_token_nonword, runs_cons_out by done. by apply IHC.
  - intros n prev Hall. cbn [findall_from drop].
    cbn [take] in Hall. apply Forall_cons in Hall as [Hc Hall].
    destruct n as [|n].
    + rewrite drop_0. by apply IHA.
    + by apply IHD.
Qed.

End MatchFacts.

Section StringFacts.
Import Text.

Lemma length_string_of_list_ascii l :
  String.length (string_of_list_ascii l) = length l.
Proof. induction l as [|c l IH]; simpl; by f_equal. Qed.

Lemma lower_list_ascii s :
  list_ascii_of_string (lower s) = map lower_char (list_ascii_of_string s).
Proof. induction s as [|c s IH]; simpl; by f_equal. Qed.

Lemma lower_string_of_list_ascii l :
  lower (string_of_list_ascii l) = string_of_list_ascii (map lower_char l).
Proof. induction l as [|c l IH]; simpl; by f_equal. Qed.

Lemma kept_string_of_list_ascii w : kept (string_of_list_ascii w) = letters3 w.
Proof. unfold kept. by rewrite list_ascii_of_string_of_list_ascii. Qed.

End StringFacts.

Lemma clean_text_words (text : string) :
  clean_text text = List.filter kept (words_of (Text.lower text)).
Proof.
  unfold clean_text, Regex.findall, words_of.
  destruct (findall_from_words (list_ascii_of_string (Text.lower text)))
    as (_ & HC & _).
  rewrite HC by done. rewrite filter_map_swap. f_equal.
  apply filter_ext. intros w. by rewrite kept_string_of_list_ascii.
Qed.

Lemma clean_text_token (text tok : string) :
  tok ∈ clean_text text → is_token tok ∧ kept tok = true.
Proof.
  rewrite clean_text_words. intros Hin.
  apply list_elem_of_In, filter_In in Hin as [Hin Hkept].
  split; [|done]. unfold words_of in Hin.
  apply in_map_iff in Hin as (w & <- & Hw).
  rewrite kept_string_of_list_ascii in Hkept. unfold letters3 in Hkept.
  apply andb_true_iff in Hkept as [Hall Hlen].
  apply Nat.leb_le in Hlen. rewrite forallb_forall in Hall.
  unfold is_token.
  rewrite length_string_of_list_ascii, list_ascii_of_string_of_list_ascii.
  split; [done|]. split.
  { apply Forall_forall. intros c Hc. apply Hall. by apply list_elem_of_In. }
  rewrite lower_string_of_list_ascii. f_equal.
  rewrite <- (map_id w) at 2. apply map_ext_in. intros c Hc.
  apply lower_char_fixes; [by apply Hall|].
  assert (Hc' : c ∈ list_ascii_of_string (Text.lower text)).
  { apply (runs_elem Text.is_word _ w c); apply list_elem_of_In; assumption. }
  rewrite lower_list_ascii in Hc'.
  apply list_elem_of_In, in_map_iff in Hc' as (c0 & <- & _).
  apply lower_char_not_AZ.
Qed.

(** C8. Every token returned by the Normalizer is lowercase, consists only of
    alphabetic characters and has length at least 3; the empty text yields the
    empty sequence. *)
Theorem clean_text_tokens_lowercase_alpha_min3 (text : string) :
  Forall is_token (clean_text text) ∧ clean_text "" = [].
Proof.
  split; [|reflexivity].
  apply Forall_forall. intros tok Htok.
  destruct (clean_text_token text tok Htok) as [H _]. exact H.
Qed.

(** C9. With the words of a text being its maximal runs of word characters
    (letters, digits, underscore), as the anchor [\b] of the pattern delimits
    them: the tokens are the words of the lower-cased text made of at least
    three letters only, in order; every other word, one that contains a digit
    or another non-letter or is shorter than three characters, is dropped as
    a whole, and every token is a whole word, never a fragment of one. *)
Theorem clean_text_keeps_whole_words_only (text : string) :
  clean_text text = List.filter kept (words_of (Text.lower text))
  ∧ Forall (λ tok, tok ∈ words_of (Text.lower text)) (clean_text text).
Proof.
  split; [apply clean_text_words|].
  rewrite clean_text_words. apply Forall_forall. intros tok Htok.
  apply list_elem_of_In, filter_In in Htok as [Htok _].
  by apply list_elem_of_In.
Qed.

(** C9, the counterexample: of the word [don't], which contains a
    character that is no letter, the fragment [don] is kept as a token; of
    [e-mail] the fragment [mail]. *)
Lemma apostrophe_word_leaves_a_fragment :
  Text.split "don't stop" = ["don't"; "stop"]
  ∧ clean_text "don't stop" = ["don"; "stop"]
  ∧ Text.split "e-mail us" = ["e-mail"; "us"]
  ∧ clean_text "e-mail us" = ["mail"].
Proof. repeat split; vm_compute; reflexivity. Qed.

(* ===================================================================== *)
(** ** Texts joined by blanks *)
(* ===================================================================== *)

Section StringAppend.
Import Text.

Lemma String_app c (a b : string) : String c a +:+ b = String c (a +:+ b).
Proof. reflexivity. Qed.

Lemma string_app_assoc (a b c : string) : (a +:+ b) +:+ c = a +:+ b +:+ c.
Proof.
  induction a as [|x a IH]; [done|]. rewrite !String_app. by rewrite IH.
Qed.

Lemma string_app_nil_r (a : string) : a +:+ "" = a.
Proof. induction a as [|x a IH]; [done|]. rewrite String_app. by rewrite IH. Qed.

Lemma list_ascii_app (a b : string) :
  list_ascii_of_string (a +:+ b)
  = list_ascii_of_string a ++ list_ascii_of_string b.
Proof.
  induction a as [|x a IH]; [done|]. rewrite String_app. simpl. by rewrite IH.
Qed.

Lemma lower_app (a b : string) : lower (a +:+ b) = lower a +:+ lower b.
Proof.
  induction a as [|x a IH]; [done|]. rewrite String_app. simpl.
  rewrite String_app. by rewrite IH.
Qed.

Lemma lower_idemp (s : string) : lower (lower s) = lower s.
Proof.
  induction s as [|c s IH]; [done|]. simpl. by rewrite lower_char_idemp, IH.
Qed.

Lemma runs_nonempty (p : ascii -> bool) c s : p c = true → runs p (c :: s) ≠ [].
Proof. intros Hc. by rewrite runs_cons_in. Qed.

(** A character outside the class ends a run: the runs of both sides do not
    touch. *)
Lemma runs_app_sep (p : ascii -> bool) s1 c s2 :
  p c = false → runs p (s1 ++ c :: s2) = runs p s1 ++ runs p s2.
Proof.
  intros Hc. induction s1 as [|a s1 IH].
  { simpl. by rewrite Hc. }
  destruct s1 as [|a' s1].
  { cbn [app]. rewrite runs_unfold2, Hc. cbn [app] in IH.
    rewrite runs_cons_out by done. simpl. by destruct (p a). }
  change ((a :: a' :: s1) ++ c :: s2) with (a :: a' :: (s1 ++ c :: s2)).
  rewrite !runs_unfold2.
  change (a' :: s1 ++ c :: s2) with ((a' :: s1) ++ c :: s2). rewrite IH.
  destruct (p a); [|done]. destruct (p a') eqn:Ha'; [|done].
  pose proof (runs_nonempty p a' s1 Ha') as Hne.
  destruct (runs p (a' :: s1)) as [|w ws]; [done|]. reflexivity.
Qed.

Lemma words_of_app_space (a b : string) :
  words_of (a +:+ " " +:+ b) = words_of a ++ words_of b.
Proof.
  unfold words_of. rewrite !list_ascii_app. cbn [list_ascii_of_string app].
  rewrite runs_app_sep by done. apply map_app.
Qed.

End StringAppend.

Lemma clean_text_app_space (a b : string) :
  clean_text (a +:+ " " +:+ b) = clean_text a ++ clean_text b.
Proof.
  rewrite !clean_text_words, !lower_app.
  change (Text.lower " ") with " ".
  rewrite words_of_app_space. apply List.filter_app.
Qed.

Lemma clean_text_join (l : list string) :
  clean_text (Py.join " " l) = concat (map clean_text l).
Proof.
  induction l as [|x l IH]; [done|].
  destruct l as [|y l].
  { simpl. by rewrite app_nil_r. }
  change (Py.join " " (x :: y :: l)) with (x +:+ " " +:+ Py.join " " (y :: l)).
  rewrite clean_text_app_space, IH. reflexivity.
Qed.

Lemma runs_all (p : ascii → bool) c w :
  Forall (λ x, p x = true) (c :: w) → Text.runs p (c :: w) = [c :: w].
Proof.
  intros Hall. apply Forall_cons in Hall as [Hc Hw].
  rewrite runs_cons_in by done.
  assert (Text.take_while p w = w ∧ Text.drop_while p w = []) as [-> ->].
  { induction Hw as [|x w Hx _ [IH1 IH2]]; [done|].
    simpl. rewrite Hx. by rewrite IH1, IH2. }
  reflexivity.
Qed.

Lemma join_cons_cons sep x y (l : list string) :
  Py.join sep (x :: y :: l) = x +:+ sep +:+ Py.join sep (y :: l).
Proof. reflexivity. Qed.

(* ===================================================================== *)
(** ** Fetching and scoring *)
(* ===================================================================== *)

Lemma elem_of_take_l {A} (x : A) n l : x ∈ take n l → x ∈ l.
Proof.
  intros H. rewrite <- (take_drop n l). apply elem_of_app. by left.
Qed.

Lemma fold_left_inv {S X : Type} (I : S → Prop) (f : S → X → S) l s :
  (∀ s x, I s → I (f s x)) → I s → I (fold_left f l s).
Proof.
  intros Hf. revert s. induction l as [|x l IH]; intros s Hs; [done|].
  simpl. apply IH. by apply Hf.
Qed.

Lemma for_each_ext {S X : Type} (f g : S → X → option S) l s :
  (∀ s x, f s x = g s x) → Py.for_each f l s = Py.for_each g l s.
Proof.
  intros Hfg. revert s. induction l as [|x l IH]; intros s; [done|].
  cbn [Py.for_each]. rewrite Hfg. destruct (g s x); [apply IH|done].
Qed.

Lemma in_ranked (a : Article) l : a ∈ ranked l ↔ a ∈ l.
Proof.
  by rewrite (ranked_perm l).
Qed.

Section FetchFacts.
Variable nltk_stopwords : gset string.
Variable feedparser_parse : string -> list Entry.
Variable clock : nat -> Z.

#[local] Abbreviation stamp := (stamped nltk_stopwords clock).
#[local] Abbreviation entries feeds := (concat (map feedparser_parse feeds)).

(** The loop body raises exactly on an entry without title or link. *)
Lemma make_article_spec ck e dt :
  Seo.make_article nltk_stopwords ck e dt
  = if has_title_and_link e
    then Some (article_of nltk_stopwords ck e dt) else None.
Proof.
  unfold Seo.make_article, has_title_and_link, article_of.
  destruct (e_title e) as [entry_title|]; [|done].
  destruct (e_link e) as [entry_link|]; done.
Qed.

Lemma test_make_article ck e dt :
  Test.make_article nltk_stopwords ck e dt
  = Seo.make_article nltk_stopwords ck e dt.
Proof.
  unfold Test.make_article, Seo.make_article.
  destruct (e_title e) as [entry_title|]; [|done].
  destruct (e_link e) as [entry_link|]; [|done]. do 2 f_equal.
  case_bool_decide as Hck; [done|].
  assert (ck = ∅) as -> by (destruct (decide (ck = ∅)); [done|contradiction]).
  by rewrite intersection_empty_r_L, size_empty.
Qed.

Lemma entry_loop_stamped ck es acc t :
  Py.for_each (Seo.entry_step nltk_stopwords clock ck) es (acc, t)
  = if forallb has_title_and_link es
    then Some (acc ++ stamp ck t es, t + length (unparsed es)) else None.
Proof.
  revert acc t. induction es as [|e es IH]; intros acc t.
  { simpl. by rewrite app_nil_r, Nat.add_0_r. }
  cbn [Py.for_each stamped forallb]. unfold Seo.entry_step, Seo.published_dt.
  unfold unparsed. rewrite filter_cons. fold (unparsed es).
  destruct (e_published_parsed e) as [d|]; cbn [fst snd];
    rewrite make_article_spec;
    (destruct (has_title_and_link e); [|done]); cbn [andb]; rewrite IH;
    (destruct (forallb has_title_and_link es); [|done]).
  - rewrite decide_False by done. by rewrite <- app_assoc.
  - rewrite decide_True by done. cbn [length].
    rewrite <- app_assoc. do 2 f_equal. lia.
Qed.

Lemma stamped_app ck t es1 es2 :
  stamp ck t (es1 ++ es2)
  = stamp ck t es1 ++ stamp ck (t + length (unparsed es1)) es2.
Proof.
  revert t. induction es1 as [|e es1 IH]; intros t.
  { simpl. by rewrite Nat.add_0_r. }
  cbn [app stamped]. unfold unparsed. rewrite filter_cons. fold (unparsed es1).
  destruct (e_published_parsed e) as [d|].
  - rewrite decide_False by done. by rewrite IH.
  - rewrite decide_True by done. rewrite IH. cbn [length app].
    do 3 f_equal. lia.
Qed.

Lemma feed_loop_stamped ck feeds acc t :
  Py.for_each (Seo.feed_step nltk_stopwords feedparser_parse clock ck)
              feeds (acc, t)
  = if forallb has_title_and_link (entries feeds)
    then Some (acc ++ stamp ck t (entries feeds),
               t + length (unparsed (entries feeds)))
    else None.
Proof.
  revert acc t. induction feeds as [|url feeds IH]; intros acc t.
  { simpl. by rewrite app_nil_r, Nat.add_0_r. }
  cbn [Py.for_each map concat]. unfold Seo.feed_step at 1.
  rewrite entry_loop_stamped, forallb_app.
  destruct (forallb has_title_and_link (feedparser_parse url)); [|done].
  cbn [andb]. rewrite IH.
  destruct (forallb has_title_and_link (entries feeds)); [|done].
  rewrite stamped_app, <- app_assoc. do 2 f_equal.
  unfold unparsed. rewrite filter_app, length_app. lia.
Qed.

(** The fetch in closed form: it raises when some entry has no title or no
    link, and else ranks the articles made entry by entry over the feeds in
    order. *)
Lemma fetched_stamped feeds ck :
  Seo.fetched nltk_stopwords feedparser_parse clock feeds ck
  = if forallb has_title_and_link (entries feeds)
    then Some (stamp ck 0 (entries feeds)) else None.
Proof.
  unfold Seo.fetched. rewrite feed_loop_stamped.
  by destruct (forallb has_title_and_link (entries feeds)).
Qed.

Lemma fetch_closed_form feeds ck :
  Seo.fetch_and_score_articles nltk_stopwords feedparser_parse clock feeds ck
  = if forallb has_title_and_link (entries feeds)
    then Some (ranked (stamp ck 0 (entries feeds))) else None.
Proof.
  unfold Seo.fetch_and_score_articles. rewrite fetched_stamped.
  by destruct (forallb has_title_and_link (entries feeds)).
Qed.

Lemma fetch_returned feeds ck scored_articles :
  Seo.fetch_and_score_articles nltk_stopwords feedparser_parse clock feeds ck
  = Some scored_articles →
  forallb has_title_and_link (entries feeds) = true
  ∧ scored_articles = ranked (stamp ck 0 (entries feeds)).
Proof.
  rewrite fetch_closed_form.
  destruct (forallb has_title_and_link (entries feeds)); [|done].
  intros H. injection H as <-. done.
Qed.

Lemma test_fetch_seo_fetch feeds ck :
  Test.fetch_and_score_articles nltk_stopwords feedparser_parse clock feeds ck
  = Seo.fetch_and_score_articles nltk_stopwords feedparser_parse clock
      feeds ck.
Proof.
  unfold Test.fetch_and_score_articles, Seo.fetch_and_score_articles.
  unfold Test.fetched, Seo.fetched.
  rewrite (for_each_ext
             (Test.feed_step nltk_stopwords feedparser_parse clock ck)
             (Seo.feed_step nltk_stopwords feedparser_parse clock ck));
    [done|].
  intros st url. unfold Test.feed_step, Seo.feed_step.
  apply for_each_ext. intros st' e. unfold Test.entry_step, Seo.entry_step.
  destruct (Seo.published_dt clock e st'.2) as [dt t'].
  by rewrite test_make_article.
Qed.

Lemma stamped_elem ck t es a :
  a ∈ stamp ck t es → ∃ e dt, e ∈ es ∧ a = article_of nltk_stopwords ck e dt.
Proof.
  revert t. induction es as [|e es IH]; intros t Ha.
  { by apply elem_of_nil in Ha. }
  cbn [stamped] in Ha.
  destruct (e_published_parsed e) as [d|];
    apply elem_of_cons in Ha as [->|Ha];
    try (eexists e, _; split; [by left|done]);
    apply IH in Ha as (e' & dt & He' & ->); exists e', dt;
    (split; [by right|done]).
Qed.

(** Every article of the result was built by the loop body from some entry. *)
Lemma seo_fetch_made feeds ck scored_articles a :
  Seo.fetch_and_score_articles nltk_stopwords feedparser_parse clock feeds ck
  = Some scored_articles →
  a ∈ scored_articles →
  ∃ e dt, Seo.make_article nltk_stopwords ck e dt = Some a
          ∧ a = article_of nltk_stopwords ck e dt.
Proof.
  intros Hf Ha. apply fetch_returned in Hf as [Hwf ->].
  apply in_ranked, stamped_elem in Ha as (e & dt & He & ->).
  exists e, dt. split; [|done]. rewrite make_article_spec.
  rewrite forallb_forall in Hwf. rewrite (Hwf e); [done|].
  by apply list_elem_of_In.
Qed.


(* --------------------------------------------------------------------- *)
(** *** [Counter] and [most_common] *)

Lemma counter_incr_keys x (c : Py.counter) w n :
  (w, n) ∈ Py.counter_incr x c → w = x ∨ w ∈ map fst c.
Proof.
  induction c as [|[y m] c IH]; cbn [Py.counter_incr map fst].
  { intros H. apply list_elem_of_singleton in H. left. congruence. }
  case_bool_decide as Hxy; intros H; apply elem_of_cons in H as [H|H].
  all: try (injection H as -> ->; right; left; reflexivity).
  all: try (destruct (IH H) as [?|?]; [by left|right; by right]).
  right. right. apply (list_elem_of_fmap_2 fst) in H. exact H.
Qed.

Lemma Counter_keys_from l (c : Py.counter) w n :
  (w, n) ∈ fold_left (λ c x, Py.counter_incr x c) l c →
  w ∈ l ∨ w ∈ map fst c.
Proof.
  revert c. induction l as [|x l IH]; intros c H; cbn [fold_left] in H.
  { right. apply (list_elem_of_fmap_2 fst) in H. exact H. }
  destruct (IH _ H) as [Hl|Hc]; [left; by right|].
  apply list_elem_of_fmap in Hc as ([w' n'] & -> & Hc).
  apply counter_incr_keys in Hc as [->|Hc]; [left; by left|by right].
Qed.

Lemma Counter_keys l w n : (w, n) ∈ Py.Counter l → w ∈ l.
Proof.
  intros H. apply Counter_keys_from in H as [H|H]; [done|].
  by apply elem_of_nil in H.
Qed.

Lemma most_common_subseteq n (c : Py.counter) p :
  p ∈ Py.most_common n c → p ∈ c.
Proof.
  unfold Py.most_common. intros H. apply elem_of_take_l in H.
  by rewrite (sorted_reverse_perm snd Nat.ltb c) in H.
Qed.

(** The keywords of one article. *)
Lemma article_of_keywords ck e dt :
  Forall (λ w, is_token w ∧ w ∉ Seo.STOPWORDS nltk_stopwords)
         (keywords (article_of nltk_stopwords ck e dt)).
Proof.
  cbn [article_of keywords]. apply Forall_forall. intros w Hw.
  apply list_elem_of_filter in Hw as [Hstop Hw].
  split; [|done]. by apply clean_text_token in Hw as [Hw _].
Qed.

(** C10. Every keyword of every article record produced by scoring is a
    lowercase alphabetic token of length at least 3 outside the stopword
    set, and so is every keyword of the trend list computed from those
    records: no stopword is ever reported as trending. *)
Theorem keywords_and_trends_are_clean_tokens feeds
    (company_keywords : gset string) (scored_articles : list Article) :
  Seo.fetch_and_score_articles nltk_stopwords feedparser_parse clock
    feeds company_keywords = Some scored_articles →
  Forall (λ a, Forall (λ w, is_token w ∧ w ∉ Seo.STOPWORDS nltk_stopwords)
                      (keywords a)) scored_articles
  ∧ Forall (λ p, is_token p.1 ∧ p.1 ∉ Seo.STOPWORDS nltk_stopwords)
           (Seo.trending_keywords scored_articles).
Proof.
  intros Hfetch.
  assert (Hkw : Forall (λ a,
    Forall (λ w, is_token w ∧ w ∉ Seo.STOPWORDS nltk_stopwords) (keywords a))
    scored_articles).
  { apply Forall_forall. intros a Ha.
    destruct (seo_fetch_made _ _ _ a Hfetch Ha) as (e & dt & _ & ->).
    apply article_of_keywords. }
  split; [done|].
  apply Forall_forall. intros [w n] Hp. cbn [fst].
  unfold Seo.trending_keywords in Hp.
  apply most_common_subseteq, Counter_keys in Hp.
  apply list_elem_of_In, in_concat in Hp as (ks & Hks & Hw).
  apply in_map_iff in Hks as (a & <- & Ha).
  apply list_elem_of_In, elem_of_take_l in Ha.
  rewrite Forall_forall in Hkw. specialize (Hkw a Ha).
  rewrite Forall_forall in Hkw. apply Hkw. by apply list_elem_of_In.
Qed.

(* --------------------------------------------------------------------- *)
(** *** Entries without a usable timestamp *)



End FetchFacts.

Lemma precedes_or {A} (x y : A) l :
  x ∈ l → y ∈ l → x ≠ y → precedes x y l ∨ precedes y x l.
Proof.
  intros Hx Hy Hne.
  apply list_elem_of_split in Hx as (l1 & l2 & ->).
  apply elem_of_app in Hy as [Hy|Hy].
  - right. apply list_elem_of_split in Hy as (k1 & k2 & ->).
    exists k1, k2, l2. by rewrite <- app_assoc.
  - apply elem_of_cons in Hy as [Hy|Hy]; [congruence|].
    left. apply list_elem_of_split in Hy as (k1 & k2 & ->).
    by exists l1, k1, k2.
Qed.

Lemma StronglySorted_precedes {A} (R : A → A → Prop) x y l :
  StronglySorted R l → precedes x y l → R x y.
Proof.
  intros Hs (l1 & l2 & l3 & ->).
  induction l1 as [|z l1 IH]; simpl in Hs.
  - apply StronglySorted_inv in Hs as [_ Hx].
    rewrite Forall_forall in Hx. apply Hx.
    apply elem_of_app. right. by left.
  - apply StronglySorted_inv in Hs as [Hs _]. by apply IH.
Qed.


Lemma keywords_and_trends_are_clean_tokens_witness :
  let scored_articles := [Demo.undated_article; Demo.dated_article] in
  Forall (λ a, Forall (λ w, is_token w ∧ w ∉ Seo.STOPWORDS Demo.stopwords)
                      (keywords a)) scored_articles
  ∧ Forall (λ p, is_token p.1 ∧ p.1 ∉ Seo.STOPWORDS Demo.stopwords)
           (Seo.trending_keywords scored_articles).
Proof.
  apply (keywords_and_trends_are_clean_tokens Demo.stopwords
           Demo.feedparser_parse Demo.clock Demo.feeds
           Demo.company_keywords).
  vm_compute. reflexivity.
Defined.

Section UnparsedTimestamp.
Variable nltk_stopwords : gset string.
Variable feedparser_parse : string -> list Entry.
Variable clock : nat -> Z.


End UnparsedTimestamp.



(* ===================================================================== *)
(** ** Substring test *)
(* ===================================================================== *)

Lemma startswith_spec p s :
  Text.startswith p s = true ↔ ∃ post, s = p +:+ post.
Proof.
  revert s. induction p as [|a p IH]; intros s; cbn [Text.startswith].
  { split; [intros _; by exists s|done]. }
  destruct s as [|b s].
  { split; [done|]. intros [post H]. discriminate H. }
  rewrite andb_true_iff, bool_decide_eq_true, IH. split.
  - intros [-> [post ->]]. by exists post.
  - intros [post H]. injection H as -> ->. eauto.
Qed.

(** [p in s] holds exactly when [s] is [pre + p + post]. *)
Lemma contains_spec p s :
  Text.contains p s = true ↔ ∃ pre post, s = pre +:+ p +:+ post.
Proof.
  induction s as [|c s IH]; cbn [Text.contains];
    rewrite orb_true_iff, startswith_spec.
  - split.
    + intros [[post H]|H]; [|done]. by exists "", post.
    + intros (pre & post & H). left.
      destruct pre; [by exists post|discriminate H].
  - rewrite IH. split.
    + intros [[post H]|(pre & post & ->)]; [by exists "", post|].
      by exists (String c pre), post.
    + intros (pre & post & H). destruct pre as [|a pre].
      * left. by exists post.
      * right. injection H as -> ->. by exists pre, post.
Qed.

(** The title test: some lead phrase, in lower case, occurs in the title in
    lower case. *)
Lemma title_matches_spec t :
  SeoNew.title_matches t = true ↔
  ∃ starter, starter ∈ question_starters ++ list_starters
    ∧ ∃ pre post, Text.lower t = pre +:+ Text.lower starter +:+ post.
Proof.
  unfold SeoNew.title_matches. rewrite existsb_exists. split.
  - intros (st & Hin & H). exists st. split; [by apply list_elem_of_In|].
    by apply contains_spec.
  - intros (st & Hin & H). exists st. split; [by apply list_elem_of_In|].
    by apply contains_spec.
Qed.

(* ===================================================================== *)
(** ** Topic idea generation (src/seonew.py) *)
(* ===================================================================== *)

Section Generation.
Variable sent_tokenize : string -> option (list string).

(** [len(sent.split())] counts the words of the sentence. *)
Lemma word_count_number_of_words sent :
  SeoNew.word_count sent = number_of_words sent.
Proof.
  unfold SeoNew.word_count, Text.split, number_of_words. apply length_map.
Qed.

Lemma lower_first_decapitalized sent :
  SeoNew.lower_first sent = decapitalized sent.
Proof.
  destruct sent as [|c rest]; [done|].
  cbn [SeoNew.lower_first decapitalized]. by destruct (Text.isupper c).
Qed.

Lemma good_length_test sent :
  (8 <? SeoNew.word_count sent) && (SeoNew.word_count sent <? 20)
  = bool_decide (good_length sent).
Proof.
  rewrite word_count_number_of_words. unfold good_length.
  destruct (8 <? number_of_words sent) eqn:H1;
    destruct (number_of_words sent <? 20) eqn:H2; cbn [andb]; symmetry;
    first [apply bool_decide_eq_true | apply bool_decide_eq_false];
    rewrite ?Nat.ltb_lt, ?Nat.ltb_ge in *; lia.
Qed.

(** A sentence of more than 8 words is not empty: [sent[0]] does not raise. *)
Lemma good_length_lower_first sent :
  good_length sent → Seo.lower_first sent = Some (decapitalized sent).
Proof.
  intros [Hlo _]. destruct sent as [|c rest].
  { vm_compute in Hlo. lia. }
  cbn [Seo.lower_first decapitalized]. unfold Text.lower_char.
  by destruct (Text.isupper c).
Qed.

(** Words joined by single blanks are counted one by one. *)
Lemma number_of_words_join (ws : list string) :
  Forall (λ w, w ≠ ""
               ∧ Forall (λ c, Text.isspace c = false) (list_ascii_of_string w))
         ws →
  number_of_words (Py.join " " ws) = length ws.
Proof.
  assert (Hone : ∀ w, w ≠ "" →
    Forall (λ c, Text.isspace c = false) (list_ascii_of_string w) →
    Text.runs (λ c, negb (Text.isspace c)) (list_ascii_of_string w)
    = [list_ascii_of_string w]).
  { intros w Hne Hw. destruct w as [|c w]; [done|].
    cbn [list_ascii_of_string] in *. apply runs_all.
    eapply Forall_impl; [exact Hw|]. cbv beta. by intros x ->. }
  unfold number_of_words.
  induction ws as [|x ws IH]; intros Hall; [done|].
  apply Forall_cons in Hall as [[Hne Hx] Hws].
  destruct ws as [|y ws].
  { cbn [Py.join]. by rewrite Hone. }
  rewrite join_cons_cons, !list_ascii_app.
  change (list_ascii_of_string " ") with [" "%char]. cbn [app].
  rewrite runs_app_sep by done.
  rewrite length_app, Hone by done. rewrite IH by done. reflexivity.
Qed.



Lemma sentence_loop_filter source_link sents ideas :
  fold_left (SeoNew.sentence_step source_link) sents ideas
  = ideas ++ map (question source_link) (filter good_length sents).
Proof.
  revert ideas. induction sents as [|sent sents IH]; intros ideas.
  { simpl. by rewrite app_nil_r. }
  cbn [fold_left]. rewrite IH. unfold SeoNew.sentence_step.
  rewrite good_length_test, lower_first_decapitalized, filter_cons.
  destruct (decide (good_length sent)) as [Hg|Hg].
  - rewrite bool_decide_eq_true_2 by done. cbn [map].
    by rewrite <- app_assoc.
  - by rewrite bool_decide_eq_false_2 by done.
Qed.

Lemma seo_sentence_loop sents ideas :
  Seo.sentence_loop sents ideas
  = ideas ++ map question_seo (filter good_length sents).
Proof.
  revert ideas. induction sents as [|sent sents IH]; intros ideas.
  { simpl. by rewrite app_nil_r. }
  cbn [Seo.sentence_loop].
  change (Seo.word_count sent) with (SeoNew.word_count sent).
  rewrite good_length_test, filter_cons.
  destruct (decide (good_length sent)) as [Hg|Hg].
  - rewrite bool_decide_eq_true_2, good_length_lower_first by done.
    rewrite IH. cbn [map]. by rewrite <- app_assoc.
  - rewrite bool_decide_eq_false_2 by done. apply IH.
Qed.

Lemma test_sentence_loop source_link sents ideas :
  Test.sentence_loop source_link sents ideas
  = ideas ++ map (λ sent, (question_seo sent, source_link))
                 (filter good_length sents).
Proof.
  revert ideas. induction sents as [|sent sents IH]; intros ideas.
  { simpl. by rewrite app_nil_r. }
  cbn [Test.sentence_loop].
  change (Test.word_count sent) with (SeoNew.word_count sent).
  rewrite good_length_test, filter_cons.
  destruct (decide (good_length sent)) as [Hg|Hg].
  - rewrite bool_decide_eq_true_2, good_length_lower_first by done.
    rewrite IH. cbn [map]. by rewrite <- app_assoc.
  - rewrite bool_decide_eq_false_2 by done. apply IH.
Qed.

#[local] Abbreviation chosen a :=
  (filter good_length (take 2 (sentences_of sent_tokenize a))).

(** The loop body: the title ideas, then the questions made from the first
    two sentences of the summary. *)
Lemma article_step_shape ideas a :
  SeoNew.article_step sent_tokenize ideas a
  = ideas ++ title_ideas a ++ map (question (link a)) (chosen a).
Proof.
  unfold SeoNew.article_step, title_ideas, sentences_of.
  assert (Ht : (if bool_decide (title a = "") then "" else title a) = title a).
  { case_bool_decide; congruence. }
  rewrite Ht. clear Ht.
  destruct (sent_tokenize (summary a)) as [sentences|].
  - rewrite sentence_loop_filter.
    destruct (SeoNew.title_matches (title a)); by rewrite <- !app_assoc.
  - cbn [take filter map]. rewrite app_nil_r.
    destruct (SeoNew.title_matches (title a)); by rewrite <- ?app_assoc.
Qed.

Lemma seo_article_step_shape ideas a :
  Seo.article_step sent_tokenize ideas a
  = ideas
    ++ (if SeoNew.title_matches (title a) then [title a] else [])
    ++ map question_seo (chosen a).
Proof.
  unfold Seo.article_step, sentences_of.
  change (Seo.title_matches (title a)) with (SeoNew.title_matches (title a)).
  destruct (sent_tokenize (summary a)) as [sentences|].
  - rewrite seo_sentence_loop.
    destruct (SeoNew.title_matches (title a)); by rewrite <- ?app_assoc.
  - cbn [take filter map]. rewrite !app_nil_r.
    by destruct (SeoNew.title_matches (title a)); rewrite ?app_nil_r.
Qed.

Lemma test_article_step_shape ideas a :
  Test.article_step sent_tokenize ideas a
  = ideas
    ++ (if SeoNew.title_matches (title a) then [(title a, link a)] else [])
    ++ map (λ sent, (question_seo sent, link a)) (chosen a).
Proof.
  unfold Test.article_step, sentences_of.
  change (Test.title_matches (title a)) with (SeoNew.title_matches (title a)).
  destruct (sent_tokenize (summary a)) as [sentences|].
  - rewrite test_sentence_loop.
    destruct (SeoNew.title_matches (title a)); by rewrite <- ?app_assoc.
  - cbn [take filter map]. rewrite !app_nil_r.
    by destruct (SeoNew.title_matches (title a)); rewrite ?app_nil_r.
Qed.

(** A loop whose body only appends gives the concatenation of what each
    round appends. *)
Lemma append_loop_concat {X I : Type} (step : list I → X → list I)
    (l : list X) (ideas : list I) :
  (∀ ideas x, step ideas x = ideas ++ step [] x) →
  fold_left step l ideas = ideas ++ concat (map (step []) l).
Proof.
  intros Hstep. revert ideas. induction l as [|a l IH]; intros ideas.
  { simpl. by rewrite app_nil_r. }
  cbn [fold_left map concat]. rewrite IH, (Hstep ideas a).
  by rewrite <- app_assoc.
Qed.

Lemma article_loop_concat l ideas :
  fold_left (SeoNew.article_step sent_tokenize) l ideas
  = ideas ++ concat (map (SeoNew.article_step sent_tokenize []) l).
Proof.
  apply append_loop_concat. intros i a.
  by rewrite (article_step_shape i), (article_step_shape []).
Qed.

Lemma generated_concat articles :
  SeoNew.generated sent_tokenize articles
  = concat (map (SeoNew.article_step sent_tokenize [])
                (take NUM_ARTICLES_TO_SCAN articles)).
Proof. unfold SeoNew.generated. by rewrite article_loop_concat. Qed.




(** C7. The summary ideas of an article come from the first two sentences of
    its summary only: each of these two sentences with more than 8 and fewer
    than 20 words gives one idea, the question template around the sentence
    with its first letter lower-cased if it is upper-case, with the
    article's link; no other sentence gives one.  They follow the title
    ideas of the article.  The words of a sentence are counted as they are
    separated by whitespace: [ws] joined by single blanks has as many words
    as [ws] has members. *)
Theorem summary_ideas_from_first_two_sentences a (ws : list string) :
  Forall (λ w, w ≠ ""
               ∧ Forall (λ c, Text.isspace c = false) (list_ascii_of_string w))
         ws →
  (∃ title_part,
     (title_part = [(title a, link a)]
      ∨ title_part = [("How to " +:+ title a, link a);
                      ("The Ultimate Guide to " +:+ title a, link a)])
     ∧ SeoNew.article_step sent_tokenize [] a
       = title_part
         ++ map (question (link a))
                (filter good_length (take 2 (sentences_of sent_tokenize a))))
  ∧ length (filter good_length (take 2 (sentences_of sent_tokenize a))) ≤ 2
  ∧ number_of_words (Py.join " " ws) = length ws
  ∧ (good_length (Py.join " " ws) ↔ 8 < length ws < 20).
Proof.
  intros Hws. split; [|split; [|split]].
  - exists (title_ideas a). split; [|by rewrite article_step_shape].
    unfold title_ideas. destruct (SeoNew.title_matches (title a)); auto.
  - etransitivity; [apply length_filter|]. rewrite length_take. lia.
  - by apply number_of_words_join.
  - unfold good_length. by rewrite number_of_words_join.
Qed.

End Generation.

Lemma summary_ideas_from_first_two_sentences_witness :
  let ws := ["Good"; "content"; "brings"; "new"; "readers"; "to"; "your";
             "site"; "daily."] in
  Forall (λ w, w ≠ ""
               ∧ Forall (λ c, Text.isspace c = false) (list_ascii_of_string w))
         ws
  ∧ number_of_words "Good content brings new readers to your site daily." = 9
  ∧ good_length "Good content brings new readers to your site daily.".
Proof.
  intros ws.
  assert (Hws : Forall (λ w, w ≠ ""
                  ∧ Forall (λ c, Text.isspace c = false)
                           (list_ascii_of_string w)) ws).
  { subst ws. repeat (constructor; [split; [done|repeat constructor]|]).
    constructor. }
  split; [exact Hws|].
  destruct (summary_ideas_from_first_two_sentences Demo.sent_tokenize
              Demo.listicle ws Hws) as (_ & _ & Hn & Hg).
  split; [exact Hn|]. apply Hg. simpl. lia.
Defined.


(* ===================================================================== *)
(** ** Deduplication and ranking of the ideas (src/seonew.py) *)
(* ===================================================================== *)

Lemma counter_get_incr x (c : Py.counter) y :
  Py.counter_get (Py.counter_incr x c) y
  = if bool_decide (x = y) then S (Py.counter_get c y) else Py.counter_get c y.
Proof.
  induction c as [|[z n] c IH]; cbn [Py.counter_incr Py.counter_get].
  { repeat case_bool_decide; congruence. }
  destruct (bool_decide (x = z)) eqn:Hxz; cbn [Py.counter_get].
  - apply bool_decide_eq_true in Hxz as ->.
    repeat case_bool_decide; congruence.
  - apply bool_decide_eq_false in Hxz. rewrite IH.
    repeat case_bool_decide; congruence.
Qed.

Lemma counter_get_fold l (c : Py.counter) y :
  Py.counter_get (fold_left (λ c x, Py.counter_incr x c) l c) y
  = Py.counter_get c y + length (filter (λ x, x = y) l).
Proof.
  revert c. induction l as [|x l IH]; intros c; cbn [fold_left].
  { simpl. lia. }
  rewrite IH, counter_get_incr, filter_cons.
  case_bool_decide; destruct (decide (x = y)); try congruence; simpl; lia.
Qed.

(** [counter[idea]] is the number of occurrences of the idea text. *)
Lemma counter_get_occurrences ideas x :
  Py.counter_get (Py.Counter (map fst ideas)) x = occurrences x ideas.
Proof.
  unfold Py.Counter, occurrences. rewrite counter_get_fold. simpl.
  induction ideas as [|p ideas IH]; [done|].
  cbn [map]. rewrite !filter_cons.
  destruct (decide (p.1 = x)); simpl; by rewrite IH.
Qed.

Lemma unique_loop_from counter ideas acc seen :
  (fold_left (SeoNew.unique_step counter) ideas (acc, seen)).1
  = acc ++ unique_from (Py.counter_get counter) seen ideas.
Proof.
  revert acc seen.
  induction ideas as [|[idea link] ideas IH]; intros acc seen.
  { simpl. by rewrite app_nil_r. }
  cbn [fold_left unique_from SeoNew.unique_step fst snd].
  case_bool_decide.
  - rewrite IH. by rewrite <- app_assoc.
  - apply IH.
Qed.

Lemma unique_from_ext f g seen ideas :
  (∀ x, f x = g x) → unique_from f seen ideas = unique_from g seen ideas.
Proof.
  intros Hfg. revert seen.
  induction ideas as [|[idea link] ideas IH]; intros seen; [done|].
  cbn [unique_from]. rewrite Hfg. case_bool_decide; by rewrite IH.
Qed.

Lemma unique_ordered_from ideas :
  SeoNew.unique_ordered ideas
  = unique_from (λ x, occurrences x ideas) ∅ ideas.
Proof.
  unfold SeoNew.unique_ordered. rewrite unique_loop_from. cbn [app].
  apply unique_from_ext. intros x. apply counter_get_occurrences.
Qed.

Section UniqueFrom.
Variable cnt : string -> nat.

Lemma unique_from_elem seen ideas u :
  u ∈ unique_from cnt seen ideas →
  (idea_text u ∉ seen)
  ∧ snd u = cnt (idea_text u)
  ∧ first_occurrence (idea_text u) (snd (fst u)) ideas.
Proof.
  revert seen. induction ideas as [|[idea link] ideas IH]; intros seen Hu.
  { by apply elem_of_nil in Hu. }
  cbn [unique_from] in Hu. case_bool_decide as Hseen.
  - apply elem_of_cons in Hu as [->|Hu].
    + split; [done|]. split; [done|]. exists [], ideas. split; [done|].
      apply not_elem_of_nil.
    + apply IH in Hu as (Hns & Hc & pre & post & -> & Hpre).
      split; [set_solver|]. split; [done|].
      exists ((idea, link) :: pre), post. split; [done|].
      cbn [map fst]. apply not_elem_of_cons. split; [set_solver|done].
  - apply IH in Hu as (Hns & Hc & pre & post & -> & Hpre).
    split; [done|]. split; [done|].
    exists ((idea, link) :: pre), post. split; [done|].
    cbn [map fst]. apply not_elem_of_cons. split; [|done].
    intros E. apply Hns. by rewrite E.
Qed.

Lemma unique_from_NoDup seen ideas :
  NoDup (map idea_text (unique_from cnt seen ideas)).
Proof.
  revert seen. induction ideas as [|[idea link] ideas IH]; intros seen.
  { constructor. }
  cbn [unique_from]. case_bool_decide; [|apply IH].
  cbn [map]. constructor; [|apply IH].
  intros Hin. apply list_elem_of_fmap in Hin as (u & Hu & Hin).
  apply unique_from_elem in Hin as (Hns & _).
  change (idea_text (idea, link, cnt idea)) with idea in Hu.
  rewrite <- Hu in Hns. set_solver.
Qed.

Lemma unique_from_texts seen ideas :
  list_to_set (map idea_text (unique_from cnt seen ideas))
  = (list_to_set (map fst ideas) : gset string) ∖ seen.
Proof.
  revert seen. induction ideas as [|[idea link] ideas IH]; intros seen.
  { set_solver. }
  cbn [unique_from map fst list_to_set]. case_bool_decide as Hseen.
  - cbn [map list_to_set fst].
    change (idea_text (idea, link, cnt idea)) with idea.
    rewrite IH. apply set_eq. intros x.
    destruct (decide (x = idea)); set_solver.
  - rewrite IH. set_solver.
Qed.

Lemma first_index_cons_ne p ideas x :
  p.1 ≠ x → first_index x (p :: ideas) = S (first_index x ideas).
Proof. intros H. cbn [first_index]. by rewrite bool_decide_eq_false_2. Qed.

Lemma unique_from_sorted seen ideas :
  StronglySorted
    (λ u v, first_index (idea_text u) ideas < first_index (idea_text v) ideas)
    (unique_from cnt seen ideas).
Proof.
  revert seen. induction ideas as [|[idea link] ideas IH]; intros seen.
  { constructor. }
  assert (Hshift : ∀ seen',
    (∀ u, u ∈ unique_from cnt seen' ideas → idea_text u ≠ idea) →
    StronglySorted
      (λ u v, first_index (idea_text u) ((idea, link) :: ideas)
              < first_index (idea_text v) ((idea, link) :: ideas))
      (unique_from cnt seen' ideas)).
  { intros seen' Hne. specialize (IH seen').
    induction IH as [|u l Hs IHs Hu]; constructor.
    - apply IHs. intros v Hv. apply Hne. by right.
    - rewrite Forall_forall in Hu |- *. intros v Hv.
      rewrite !first_index_cons_ne.
      + specialize (Hu v Hv). lia.
      + cbn [fst]. intros E. eapply Hne; [right; exact Hv|]. by symmetry.
      + cbn [fst]. intros E. eapply Hne; [left|]. by symmetry. }
  cbn [unique_from]. case_bool_decide as Hseen.
  - constructor.
    + apply Hshift. intros u Hu E.
      apply unique_from_elem in Hu as (Hns & _). set_solver.
    + apply Forall_forall. intros v Hv.
      apply unique_from_elem in Hv as (Hns & _).
      cbn [first_index fst]. rewrite bool_decide_eq_true_2 by done.
      rewrite bool_decide_eq_false_2; [lia|]. set_solver.
  - apply Hshift. intros u Hu E.
    apply unique_from_elem in Hu as (Hns & _). congruence.
Qed.

End UniqueFrom.

Lemma ltb_asym (a b : nat) : (a <? b) = true → (b <? a) = false.
Proof. rewrite Nat.ltb_lt, Nat.ltb_ge. lia. Qed.

Lemma ltb_negtrans (a b c : nat) :
  (a <? c) = true → (a <? b) = true ∨ (b <? c) = true.
Proof. rewrite !Nat.ltb_lt. lia. Qed.

Lemma unique_ordered_elem ideas u :
  u ∈ SeoNew.unique_ordered ideas →
  snd u = occurrences (idea_text u) ideas
  ∧ first_occurrence (idea_text u) (snd (fst u)) ideas.
Proof.
  rewrite unique_ordered_from. intros Hu.
  by apply unique_from_elem in Hu as (_ & Hc & Hf).
Qed.

(** The sorted list of triples, before it is cut and the counts dropped. *)
Lemma sorted_unique_ordered ideas :
  StronglySorted (λ u v, idea_order ideas (fst u) (fst v))
    (Py.sorted_reverse snd Nat.ltb (SeoNew.unique_ordered ideas)).
Proof.
  eapply StronglySorted_weaken_in;
    [|apply (sorted_reverse_lex snd Nat.ltb ltb_asym ltb_negtrans
               (λ u v, first_index (idea_text u) ideas
                       < first_index (idea_text v) ideas));
      rewrite unique_ordered_from; apply unique_from_sorted].
  intros u v Hu Hv Huv.
  rewrite (sorted_reverse_perm snd Nat.ltb) in Hu, Hv.
  apply unique_ordered_elem in Hu as [Hu _], Hv as [Hv _].
  unfold idea_order. change (fst u).1 with (idea_text u).
  change (fst v).1 with (idea_text v). rewrite <- Hu, <- Hv.
  destruct Huv as [H|[H Hq]].
  - apply Nat.ltb_lt in H. by left.
  - apply Nat.ltb_ge in H.
    destruct (decide (snd u = snd v)); [right|left]; lia.
Qed.

Lemma test_unique_loop cnt ideas acc seen :
  (fold_left Test.unique_step ideas (acc, seen)).1
  = acc ++ map fst (unique_from cnt seen ideas).
Proof.
  revert acc seen.
  induction ideas as [|[idea link] ideas IH]; intros acc seen.
  { simpl. by rewrite app_nil_r. }
  cbn [fold_left unique_from Test.unique_step fst snd].
  case_bool_decide.
  - rewrite IH. cbn [map fst]. by rewrite <- app_assoc.
  - apply IH.
Qed.

Lemma test_unique_ideas ideas :
  Test.unique_ideas ideas = map fst (SeoNew.unique_ordered ideas).
Proof.
  unfold Test.unique_ideas.
  by rewrite (test_unique_loop (λ x, occurrences x ideas)), unique_ordered_from.
Qed.

(** C2. Deduplication keeps each distinct idea text exactly once, with the
    link of its first occurrence in generation order and with a count equal
    to the number of occurrences of the text in the generated sequence; the
    suggestions returned are taken from these entries, so no idea text is
    returned twice and each is returned with its first link. *)
Theorem dedup_first_link_and_frequency (ideas : list (string * string)) :
  let unique := SeoNew.unique_ordered ideas in
  NoDup (map idea_text unique)
  ∧ list_to_set (map idea_text unique)
    = (list_to_set (map fst ideas) : gset string)
  ∧ Forall (λ u, first_occurrence (idea_text u) (snd (fst u)) ideas
                 ∧ snd u = occurrences (idea_text u) ideas) unique
  ∧ NoDup (map fst (SeoNew.rank_ideas ideas))
  ∧ Forall (λ p, first_occurrence (fst p) (snd p) ideas)
           (SeoNew.rank_ideas ideas).
Proof.
  intros unique. subst unique.
  split; [rewrite unique_ordered_from; apply unique_from_NoDup|].
  split.
  { rewrite unique_ordered_from, unique_from_texts. set_solver. }
  split.
  { apply Forall_forall. intros u Hu.
    by apply unique_ordered_elem in Hu as [? ?]. }
  unfold SeoNew.rank_ideas.
  set (sorted := Py.sorted_reverse snd Nat.ltb (SeoNew.unique_ordered ideas)).
  assert (Hperm : Permutation sorted (SeoNew.unique_ordered ideas))
    by apply sorted_reverse_perm.
  split.
  - rewrite map_map. change (λ x, fst (fst x)) with idea_text.
    apply (sublist_NoDup _ (idea_text <$> sorted)).
    + rewrite Hperm, unique_ordered_from. apply unique_from_NoDup.
    + apply fmap_sublist, sublist_take.
  - apply Forall_forall. intros p Hp.
    apply list_elem_of_fmap in Hp as (u & -> & Hu).
    apply elem_of_take_l in Hu. rewrite Hperm in Hu.
    by apply unique_ordered_elem in Hu as [_ ?].
Qed.

(** C3. In src/seonew.py the suggestions are the first 15 entries of the
    deduplicated sequence put in order of decreasing frequency, equally
    frequent ideas in the order of their first occurrence: with the entries
    [rest] that the cut leaves out they are every distinct idea text exactly
    once, each with its first link, in that order.  In src/test.py the
    suggestions are the first 15 entries of the deduplicated sequence in the
    order of first occurrence; the frequencies play no part.  An empty
    sequence of ideas, and an empty list of articles, give the empty list in
    both. *)
Theorem suggestions_by_frequency_stable_truncated
    (sent_tokenize : string -> option (list string))
    (ideas : list (string * string)) (articles : list Article) :
  (∃ rest,
     let all := SeoNew.rank_ideas ideas ++ rest in
     StronglySorted (idea_order ideas) all
     ∧ NoDup (map fst all)
     ∧ list_to_set (map fst all) = (list_to_set (map fst ideas) : gset string)
     ∧ Forall (λ p, first_occurrence p.1 p.2 ideas) all
     ∧ length (SeoNew.rank_ideas ideas) = min 15 (length all))
  ∧ SeoNew.suggest_seo_topics sent_tokenize articles
    = SeoNew.rank_ideas (SeoNew.generated sent_tokenize articles)
  ∧ SeoNew.rank_ideas [] = []
  ∧ SeoNew.suggest_seo_topics sent_tokenize [] = []
  ∧ (∃ rest,
       let all := take 15 (Test.unique_ideas ideas) ++ rest in
       StronglySorted
         (λ p q, first_index p.1 ideas < first_index q.1 ideas) all
       ∧ NoDup (map fst all)
       ∧ list_to_set (map fst all)
         = (list_to_set (map fst ideas) : gset string)
       ∧ Forall (λ p, first_occurrence p.1 p.2 ideas) all
       ∧ length (take 15 (Test.unique_ideas ideas)) = min 15 (length all))
  ∧ Test.suggest_seo_topics sent_tokenize articles
    = take 15 (Test.unique_ideas (Test.generated sent_tokenize articles))
  ∧ Test.unique_ideas [] = []
  ∧ Test.suggest_seo_topics sent_tokenize [] = [].
Proof.
  assert (Hnd : NoDup (map idea_text (SeoNew.unique_ordered ideas))).
  { rewrite unique_ordered_from. apply unique_from_NoDup. }
  assert (Hset : list_to_set (map idea_text (SeoNew.unique_ordered ideas))
                 = (list_to_set (map fst ideas) : gset string)).
  { rewrite unique_ordered_from, unique_from_texts. set_solver. }
  assert (Hfirst : Forall (λ u, first_occurrence (idea_text u) u.1.2 ideas)
                          (SeoNew.unique_ordered ideas)).
  { apply Forall_forall. intros u Hu.
    by apply unique_ordered_elem in Hu as [_ ?]. }
  split; [|split; [reflexivity|split; [reflexivity|split; [reflexivity|]]]].
  { set (sorted := Py.sorted_reverse snd Nat.ltb (SeoNew.unique_ordered ideas)).
    assert (Hperm : Permutation sorted (SeoNew.unique_ordered ideas))
      by apply sorted_reverse_perm.
    exists (map fst (drop 15 sorted)). cbv zeta.
    assert (Hall : SeoNew.rank_ideas ideas ++ map fst (drop 15 sorted)
                   = map fst sorted).
    { unfold SeoNew.rank_ideas. fold sorted.
      change NUM_SUGGESTIONS with 15.
      by rewrite <- map_app, take_drop. }
    rewrite Hall. split; [|split; [|split; [|split]]].
    - apply StronglySorted_map, sorted_unique_ordered.
    - rewrite map_map. change (λ x, fst (fst x)) with idea_text.
      change (map idea_text sorted) with (idea_text <$> sorted).
      by rewrite Hperm.
    - rewrite map_map. change (λ x, fst (fst x)) with idea_text.
      rewrite <- Hset.
      change (map idea_text sorted) with (idea_text <$> sorted).
      change (map idea_text (SeoNew.unique_ordered ideas))
        with (idea_text <$> SeoNew.unique_ordered ideas).
      apply set_eq. intros x. rewrite !elem_of_list_to_set.
      by rewrite Hperm.
    - apply Forall_forall. intros p Hp.
      apply list_elem_of_fmap in Hp as (u & -> & Hu). rewrite Hperm in Hu.
      exact (proj1 (Forall_forall _ _) Hfirst u Hu).
    - unfold SeoNew.rank_ideas. fold sorted.
      by rewrite !length_map, length_take. }
  split; [|split; [reflexivity|split; reflexivity]].
  exists (drop 15 (Test.unique_ideas ideas)). cbv zeta.
  rewrite take_drop, length_take. split; [|split; [|split; [|split]]].
  - rewrite test_unique_ideas, unique_ordered_from.
    apply StronglySorted_map, unique_from_sorted.
  - rewrite test_unique_ideas, map_map.
    by change (λ x, fst (fst x)) with idea_text.
  - rewrite test_unique_ideas, map_map.
    by change (λ x, fst (fst x)) with idea_text.
  - rewrite test_unique_ideas. apply Forall_forall. intros p Hp.
    apply list_elem_of_fmap in Hp as (u & -> & Hu).
    exact (proj1 (Forall_forall _ _) Hfirst u Hu).
  - reflexivity.
Qed.

(** C3, the counterexample in src/test.py: the title of the first article
    is generated once, the title shared by the next two articles twice, and
    the suggestions still begin with the idea generated once. *)
Lemma test_suggestions_not_by_frequency :
  let ideas :=
    Test.generated Demo.sent_tokenize
      [Demo.audit; Demo.traffic; Demo.traffic_again] in
  Test.suggest_seo_topics Demo.sent_tokenize
    [Demo.audit; Demo.traffic; Demo.traffic_again]
  = [("Steps to Audit Content", "https://example.org/1");
     ("How to Boost Organic Traffic", "https://example.org/2")]
  ∧ occurrences "Steps to Audit Content" ideas = 1
  ∧ occurrences "How to Boost Organic Traffic" ideas = 2
  ∧ ¬ idea_order ideas
        ("Steps to Audit Content", "https://example.org/1")
        ("How to Boost Organic Traffic", "https://example.org/2")
  ∧ SeoNew.rank_ideas ideas
    = [("How to Boost Organic Traffic", "https://example.org/2");
       ("Steps to Audit Content", "https://example.org/1")].
Proof.
  cbv zeta.
  assert (Hgen : Test.generated Demo.sent_tokenize
                   [Demo.audit; Demo.traffic; Demo.traffic_again]
                 = [("Steps to Audit Content", "https://example.org/1");
                    ("How to Boost Organic Traffic", "https://example.org/2");
                    ("How to Boost Organic Traffic", "https://example.org/3")])
    by (vm_compute; reflexivity).
  rewrite Hgen.
  split; [vm_compute; reflexivity|].
  split; [vm_compute; reflexivity|].
  split; [vm_compute; reflexivity|].
  split; [|vm_compute; reflexivity].
  unfold idea_order. cbn [fst].
  assert (H1 : occurrences "Steps to Audit Content"
                 [("Steps to Audit Content", "https://example.org/1");
                  ("How to Boost Organic Traffic", "https://example.org/2");
                  ("How to Boost Organic Traffic", "https://example.org/3")]
               = 1) by (vm_compute; reflexivity).
  assert (H2 : occurrences "How to Boost Organic Traffic"
                 [("Steps to Audit Content", "https://example.org/1");
                  ("How to Boost Organic Traffic", "https://example.org/2");
                  ("How to Boost Organic Traffic", "https://example.org/3")]
               = 2) by (vm_compute; reflexivity).
  rewrite H1, H2. lia.
Qed.

(* ===================================================================== *)
(** ** Deduplication in src/seo.py: [Counter(ideas).most_common] *)
(* ===================================================================== *)

Lemma counter_incr_NoDup x (c : Py.counter) :
  NoDup (map fst c) → NoDup (map fst (Py.counter_incr x c)).
Proof.
  induction c as [|[z n] c IH]; cbn [Py.counter_incr map fst]; intros Hnd.
  { repeat constructor. apply not_elem_of_nil. }
  apply NoDup_cons in Hnd as [Hz Hnd].
  case_bool_decide as Hxz; cbn [map fst].
  - by constructor.
  - constructor; [|by apply IH].
    intros Hin. apply list_elem_of_fmap in Hin as ([w m] & -> & Hin).
    apply counter_incr_keys in Hin as [Hw|Hw]; cbn [fst] in *; congruence.
Qed.

Lemma Counter_NoDup l : NoDup (map fst (Py.Counter l)).
Proof.
  unfold Py.Counter.
  apply (fold_left_inv (λ c : Py.counter, NoDup (map fst c))).
  - intros c x. apply counter_incr_NoDup.
  - constructor.
Qed.

Lemma counter_get_elem (c : Py.counter) x n :
  NoDup (map fst c) → (x, n) ∈ c → Py.counter_get c x = n.
Proof.
  induction c as [|[z m] c IH]; intros Hnd Hin.
  { by apply elem_of_nil in Hin. }
  cbn [map fst] in Hnd. apply NoDup_cons in Hnd as [Hz Hnd].
  cbn [Py.counter_get]. apply elem_of_cons in Hin as [Hin|Hin].
  - injection Hin as -> ->. by rewrite bool_decide_eq_true_2.
  - rewrite bool_decide_eq_false_2; [by apply IH|].
    intros ->. apply Hz. apply (list_elem_of_fmap_2 fst) in Hin. exact Hin.
Qed.

(** Each distinct idea text is a key of the counter once, with the number of
    its occurrences. *)
Lemma Counter_counts l x n :
  (x, n) ∈ Py.Counter l → n = length (filter (λ y, y = x) l).
Proof.
  intros Hin. rewrite <- (counter_get_elem _ _ _ (Counter_NoDup l) Hin).
  unfold Py.Counter. by rewrite counter_get_fold.
Qed.

Lemma seo_suggestions_unique (sent_tokenize : string -> option (list string))
    articles :
  NoDup (Seo.suggest_seo_topics sent_tokenize articles)
  ∧ length (Seo.suggest_seo_topics sent_tokenize articles) ≤ NUM_SUGGESTIONS.
Proof.
  unfold Seo.suggest_seo_topics, Py.most_common. split.
  - apply (sublist_NoDup _
      (fst <$> Py.sorted_reverse snd Nat.ltb
                 (Py.Counter (Seo.generated sent_tokenize articles)))).
    + rewrite (sorted_reverse_perm snd Nat.ltb). apply Counter_NoDup.
    + apply fmap_sublist, sublist_take.
  - rewrite length_map, length_take. lia.
Qed.

(* ===================================================================== *)
(** ** Worked examples *)
(* ===================================================================== *)

Example clean_text_ex1 :
  clean_text "5 Ways to Improve Your SEO in 2024, e-mail & don't seo2024 abc_def caf"
  = ["ways"; "improve"; "your"; "seo"; "mail"; "don"; "caf"].
Proof. vm_compute. reflexivity. Qed.

Example split_ex1 : Text.split "  a bc   d " = ["a"; "bc"; "d"].
Proof. vm_compute. reflexivity. Qed.


Example fetch_ex :
  Seo.fetch_and_score_articles Demo.stopwords Demo.feedparser_parse
    Demo.clock Demo.feeds Demo.company_keywords
  = Some [Demo.undated_article; Demo.dated_article].
Proof. vm_compute. reflexivity. Qed.

(** An entry without title makes the fetch raise, and with it [main]. *)
Example fetch_raises_ex :
  Seo.fetch_and_score_articles Demo.stopwords Demo.feedparser_untitled
    Demo.clock Demo.feeds Demo.company_keywords = None
  ∧ SeoNew.main Demo.stopwords Demo.sent_tokenize (λ _, [Demo.untitled])
      Demo.clock (λ _ _, "") "2024-01-01" None = Raised.
Proof. split; vm_compute; reflexivity. Qed.

(** A word with a letter outside [a-z], here the code point 233, is
    dropped as a whole. *)
Example clean_text_ex3 :
  clean_text ("caf" +:+ String (ascii_of_nat 233) " au lait") = ["lait"].
Proof. vm_compute. reflexivity. Qed.

(** A title with a lead phrase is kept as it is; of the summary only the
    second sentence (9 words) gives a question, the first (8 words) does not
    and the third is not looked at. *)
Example listicle_ideas :
  SeoNew.article_step Demo.sent_tokenize [] Demo.listicle
  = [("5 Ways to Improve Your SEO", "https://example.org/ways");
     ("Why is good content brings new readers to your site daily. important for your business?",
      "https://example.org/ways")].
Proof. vm_compute. reflexivity. Qed.

Example word_counts :
  map SeoNew.word_count
      (sentences_of Demo.sent_tokenize Demo.listicle) = [8; 9; 10].
Proof. vm_compute. reflexivity. Qed.

(** A title without a lead phrase: src/seonew.py emits two rewrites,
    src/seo.py and src/test.py emit no title idea. *)
Example plain_ideas_seonew :
  SeoNew.article_step Demo.sent_tokenize [] Demo.plain
  = [("How to Content marketing basics", "https://example.org/plain");
     ("The Ultimate Guide to Content marketing basics",
      "https://example.org/plain")].
Proof. vm_compute. reflexivity. Qed.

Example plain_ideas_seo :
  Seo.article_step Demo.sent_tokenize [] Demo.plain = []
  ∧ Test.article_step Demo.sent_tokenize [] Demo.plain = [].
Proof. vm_compute. split; reflexivity. Qed.

Example listicle_ideas_seo :
  Seo.article_step Demo.sent_tokenize [] Demo.listicle
  = ["5 Ways to Improve Your SEO";
     "Why is good content brings new readers to your site daily. Important for Your Business?"].
Proof. vm_compute. reflexivity. Qed.

(** An idea generated twice counts 2, keeps its first link and moves to the
    front in src/seonew.py and src/seo.py; src/test.py keeps the order of
    generation. *)
Example ideas_unique_ordered :
  SeoNew.unique_ordered Demo.ideas
  = [("Content Audit Steps", "https://example.org/1", 1);
     ("How to Boost Organic Traffic", "https://example.org/2", 2)].
Proof. vm_compute. reflexivity. Qed.

Example ideas_ranked_seonew :
  SeoNew.rank_ideas Demo.ideas
  = [("How to Boost Organic Traffic", "https://example.org/2");
     ("Content Audit Steps", "https://example.org/1")].
Proof. vm_compute. reflexivity. Qed.

Example ideas_ranked_seo :
  Py.most_common NUM_SUGGESTIONS (Py.Counter (map fst Demo.ideas))
  = [("How to Boost Organic Traffic", 2); ("Content Audit Steps", 1)].
Proof. vm_compute. reflexivity. Qed.

Example ideas_unique_test :
  Test.unique_ideas Demo.ideas
  = [("Content Audit Steps", "https://example.org/1");
     ("How to Boost Organic Traffic", "https://example.org/2")].
Proof. vm_compute. reflexivity. Qed.

(** Punctuation separates words; digits and underscores do not. *)
Example clean_text_ex2 :
  clean_text "AI-powered web3 b2b A_B tests, don't!" = ["powered"; "tests"; "don"].
Proof. vm_compute. reflexivity. Qed.

(* ===================================================================== *)
(** ** More on the Normalizer *)
(* ===================================================================== *)

(** A token is its own only token. *)
Lemma clean_text_of_token (w : string) : is_token w → clean_text w = [w].
Proof.
  intros (Hlen & Hall & Hlow). rewrite clean_text_words, Hlow.
  unfold words_of.
  destruct (list_ascii_of_string w) as [|c l] eqn:Hw.
  { apply (f_equal string_of_list_ascii) in Hw.
    rewrite string_of_list_ascii_of_string in Hw. subst w. simpl in Hlen. lia. }
  rewrite runs_all.
  - cbn [map List.filter]. rewrite <- Hw, string_of_list_ascii_of_string.
    unfold kept, letters3. rewrite Hw.
    replace (forallb Text.is_alpha (c :: l)) with true.
    + rewrite <- Hw, <- (length_string_of_list_ascii (list_ascii_of_string w)).
      rewrite string_of_list_ascii_of_string.
      apply Nat.leb_le in Hlen. by rewrite Hlen.
    + symmetry. apply forallb_forall. intros x Hx.
      rewrite Forall_forall in Hall. apply Hall. by apply list_elem_of_In.
  - eapply Forall_impl; [exact Hall|]. intros x. apply alpha_is_word.
Qed.

(** X1. Normalizing is a projection and ignores letter case: the tokens of
    a text, joined by blanks and normalized again, are the same tokens, and
    a text and its lower-cased form have the same tokens. *)
Theorem clean_text_idempotent_and_case_blind (text : string) :
  clean_text (Py.join " " (clean_text text)) = clean_text text
  ∧ clean_text (Text.lower text) = clean_text text.
Proof.
  split; [|unfold clean_text; by rewrite lower_idemp].
  rewrite clean_text_join.
  assert (Htok : Forall is_token (clean_text text)).
  { apply Forall_forall. intros w Hw. by apply clean_text_token in Hw as [? _]. }
  induction Htok as [|w l Hw _ IH]; [done|].
  cbn [map concat]. by rewrite (clean_text_of_token w Hw), IH.
Qed.

(** X2. The keywords of an article are the keywords of its title followed
    by the keywords of its summary (none for a missing summary): the blank
    put between title and summary keeps their words apart. *)
Theorem article_keywords_title_then_summary (nltk_stopwords : gset string)
    (company_keywords : gset string) (e : Entry) (dt : Z) (a : Article) :
  Seo.make_article nltk_stopwords company_keywords e dt = Some a →
  e_title e = Some (title a)
  ∧ keywords a
    = filter (λ w, w ∉ Seo.STOPWORDS nltk_stopwords) (clean_text (title a))
      ++ filter (λ w, w ∉ Seo.STOPWORDS nltk_stopwords)
                (clean_text (get_summary e "")).
Proof.
  unfold Seo.make_article.
  destruct (e_title e) as [entry_title|]; [|done].
  destruct (e_link e) as [entry_link|]; [|done].
  intros [= <-]. cbn [title keywords]. split; [done|].
  by rewrite clean_text_app_space, filter_app.
Qed.

Lemma article_keywords_title_then_summary_witness :
  Seo.make_article Demo.stopwords Demo.company_keywords Demo.dated 100
  = Some Demo.dated_article
  ∧ keywords Demo.dated_article
    = filter (λ w, w ∉ Seo.STOPWORDS Demo.stopwords)
             (clean_text "Content marketing trends")
      ++ filter (λ w, w ∉ Seo.STOPWORDS Demo.stopwords)
                (clean_text "Marketing teams plan content.").
Proof.
  assert (H : Seo.make_article Demo.stopwords Demo.company_keywords
                Demo.dated 100 = Some Demo.dated_article)
    by (vm_compute; reflexivity).
  split; [exact H|].
  exact (proj2 (article_keywords_title_then_summary Demo.stopwords
                  Demo.company_keywords Demo.dated 100 Demo.dated_article H)).
Defined.

(* ===================================================================== *)
(** ** The reference keywords: [get_existing_blog_keywords] *)
(* ===================================================================== *)

(** Joining titles and descriptions separately and appending the results
    puts no separator between the last title and the first description. *)
Lemma join_glue sep (ts : list string) t d ds :
  Py.join sep (ts ++ [t]) +:+ Py.join sep (d :: ds)
  = Py.join sep (ts ++ (t +:+ d) :: ds).
Proof.
  induction ts as [|x ts IH].
  - cbn [app]. destruct ds as [|d' ds]; [done|].
    rewrite !join_cons_cons. cbn [Py.join]. by rewrite string_app_assoc.
  - destruct ts as [|y ts].
    + cbn [app] in *. rewrite join_cons_cons, string_app_assoc.
      rewrite string_app_assoc, IH.
      destruct ds; reflexivity.
    + change ((x :: y :: ts) ++ [t]) with (x :: y :: (ts ++ [t])).
      change ((x :: y :: ts) ++ (t +:+ d) :: ds)
        with (x :: y :: (ts ++ (t +:+ d) :: ds)).
      rewrite !join_cons_cons, !string_app_assoc. do 2 f_equal.
      exact IH.
Qed.

Lemma filter_concat {A} (P : A → Prop) `{∀ x, Decision (P x)}
    (ls : list (list A)) :
  filter P (concat ls) = concat (map (filter P) ls).
Proof.
  induction ls as [|l ls IH]; [done|]. simpl. by rewrite filter_app, IH.
Qed.

Section BlogKeywords.
Variable nltk_stopwords : gset string.

#[local] Abbreviation keywords_of text :=
  (filter (λ w, w ∉ Seo.STOPWORDS nltk_stopwords) (clean_text text)).

Lemma blog_keywords_joined (l : list string) :
  Seo.get_existing_blog_keywords nltk_stopwords (Some (Py.join " " l))
  = list_to_set (concat (map (λ text, keywords_of text) l)).
Proof.
  cbn [Seo.get_existing_blog_keywords].
  by rewrite clean_text_join, filter_concat, map_map.
Qed.

(** X3. The reference keywords are lowercase alphabetic tokens of length at
    least 3 outside the stopword set; when the request for the blog page
    fails they are the empty set. *)
Theorem blog_keywords_are_clean_tokens (page : option string) :
  set_Forall (λ w, is_token w ∧ w ∉ Seo.STOPWORDS nltk_stopwords)
             (Seo.get_existing_blog_keywords nltk_stopwords page)
  ∧ Seo.get_existing_blog_keywords nltk_stopwords None = ∅.
Proof.
  split; [|reflexivity]. intros w Hw.
  destruct page as [full_text|]; cbn [Seo.get_existing_blog_keywords] in Hw.
  - apply elem_of_list_to_set, list_elem_of_filter in Hw as [Hstop Hw].
    split; [|done]. by apply clean_text_token in Hw as [Hw _].
  - by apply elem_of_empty in Hw.
Qed.

(** X4. The titles are joined by blanks and so are the descriptions, but
    the two joined texts are appended without a blank: the reference
    keywords are those of the titles but the last, of the last title and
    the first description read as one text, and of the other descriptions.
    With no descriptions, or no titles, they are the keywords of the
    texts that are there. *)
Theorem blog_keywords_glue_last_title_to_first_description
    (ts : list string) (t d : string) (ds : list string) :
  Seo.get_existing_blog_keywords nltk_stopwords
    (Some (Seo.full_text (ts ++ [t]) (d :: ds)))
  = list_to_set
      (concat (map (λ text, keywords_of text) (ts ++ (t +:+ d) :: ds)))
  ∧ Seo.get_existing_blog_keywords nltk_stopwords
      (Some (Seo.full_text (ts ++ [t]) []))
    = list_to_set (concat (map (λ text, keywords_of text) (ts ++ [t])))
  ∧ Seo.get_existing_blog_keywords nltk_stopwords
      (Some (Seo.full_text [] (d :: ds)))
    = list_to_set (concat (map (λ text, keywords_of text) (d :: ds))).
Proof.
  unfold Seo.full_text. split; [|split].
  - by rewrite join_glue, blog_keywords_joined.
  - change (Py.join " " []) with "".
    by rewrite string_app_nil_r, blog_keywords_joined.
  - change (Py.join " " [] +:+ Py.join " " (d :: ds))
      with (Py.join " " (d :: ds)).
    by rewrite blog_keywords_joined.
Qed.

End BlogKeywords.

(* ===================================================================== *)
(** ** More on fetching and scoring *)
(* ===================================================================== *)

Lemma size_list_to_set_le (l : list string) :
  size (list_to_set l : gset string) ≤ length l.
Proof.
  induction l as [|x l IH]; [by rewrite list_to_set_nil, size_empty|].
  rewrite list_to_set_cons, size_union_alt, size_singleton. cbn [length].
  etransitivity; [|apply le_n_S, IH].
  apply le_n_S, subseteq_size. set_solver.
Qed.

Section FetchMore.
Variable nltk_stopwords : gset string.
Variable feedparser_parse : string -> list Entry.
Variable clock : nat -> Z.

#[local] Abbreviation stamp := (stamped nltk_stopwords clock).
#[local] Abbreviation entries feeds := (concat (map feedparser_parse feeds)).

(** X5. The test for an empty reference set in src/test.py changes nothing:
    src/test.py fetches, scores and ranks exactly as src/seo.py does. *)
Theorem test_fetch_equals_seo_fetch feeds (company_keywords : gset string) :
  Test.fetch_and_score_articles nltk_stopwords feedparser_parse clock
    feeds company_keywords
  = Seo.fetch_and_score_articles nltk_stopwords feedparser_parse clock
      feeds company_keywords.
Proof.
  unfold Test.fetch_and_score_articles, Seo.fetch_and_score_articles.
  unfold Test.fetched, Seo.fetched.
  rewrite (for_each_ext
             (Test.feed_step nltk_stopwords feedparser_parse clock
                company_keywords)
             (Seo.feed_step nltk_stopwords feedparser_parse clock
                company_keywords));
    [done|].
  intros st url. unfold Test.feed_step, Seo.feed_step.
  apply for_each_ext. intros st' e. unfold Test.entry_step, Seo.entry_step.
  destruct (Seo.published_dt clock e st'.2) as [dt t'].
  by rewrite test_make_article.
Qed.

(** X6. No score exceeds the size of the reference set or the number of
    keywords of the article. *)
Theorem score_bounded feeds (company_keywords : gset string)
    (scored_articles : list Article) :
  Seo.fetch_and_score_articles nltk_stopwords feedparser_parse clock
    feeds company_keywords = Some scored_articles →
  Forall (λ a, score a ≤ size company_keywords
               ∧ score a ≤ length (keywords a))
    scored_articles.
Proof.
  intros Hf. apply Forall_forall. intros a Ha.
  destruct (seo_fetch_made _ _ _ _ _ _ _ Hf Ha) as (e & dt & _ & ->).
  cbn [article_of score keywords]. split.
  - apply subseteq_size. set_solver.
  - etransitivity; [|apply size_list_to_set_le].
    apply subseteq_size. set_solver.
Qed.

Lemma forallb_false_elem {A} (f : A → bool) (l : list A) :
  forallb f l = false → ∃ x, x ∈ l ∧ f x = false.
Proof.
  induction l as [|x l IH]; [done|]. cbn [forallb].
  destruct (f x) eqn:Hx; cbn [andb].
  - intros H. destruct (IH H) as (y & Hy & Hfy). exists y. split; [by right|done].
  - intros _. exists x. split; [by left|done].
Qed.

Lemma has_title_and_link_false e :
  has_title_and_link e = false ↔ e_title e = None ∨ e_link e = None.
Proof.
  unfold has_title_and_link.
  destruct (e_title e), (e_link e); split; intros H; try done; auto;
    by destruct H.
Qed.

Lemma stamped_entries ck t es :
  forallb has_title_and_link es = true →
  Forall2 (λ e a,
      e_title e = Some (title a) ∧ e_link e = Some (link a)
      ∧ summary a = get_summary e "No summary available."
      ∧ from_option (λ d, published a = d) True (e_published_parsed e))
    es (stamp ck t es).
Proof.
  revert t. induction es as [|e es IH]; intros t Hwf; [constructor|].
  cbn [forallb] in Hwf. apply andb_prop in Hwf as [He Hes].
  assert (Ht : e_title e = Some (default "" (e_title e))
               ∧ e_link e = Some (default "" (e_link e))).
  { unfold has_title_and_link in He.
    by destruct (e_title e), (e_link e). }
  destruct Ht as [Ht Hl].
  cbn [stamped]. destruct (e_published_parsed e) as [d|] eqn:Hd;
    (constructor; [|by apply IH]); rewrite Hd; done.
Qed.

(** X7. Fetching raises exactly when some entry has no title or no link.
    Otherwise it makes one article per entry, in the order of the feeds and
    of the entries within a feed, with the entry's title and link, its
    summary or the placeholder, and its publish timestamp when that parses;
    ranking keeps their number. *)
Theorem one_article_per_entry_in_feed_order feeds
    (company_keywords : gset string) :
  match Seo.fetched nltk_stopwords feedparser_parse clock feeds
          company_keywords with
  | Some articles =>
      Forall2 (λ e a,
          e_title e = Some (title a) ∧ e_link e = Some (link a)
          ∧ summary a = get_summary e "No summary available."
          ∧ from_option (λ d, published a = d) True (e_published_parsed e))
        (entries feeds) articles
      ∧ Seo.fetch_and_score_articles nltk_stopwords feedparser_parse clock
          feeds company_keywords = Some (ranked articles)
      ∧ length (ranked articles) = length (entries feeds)
  | None =>
      (∃ e, e ∈ entries feeds ∧ (e_title e = None ∨ e_link e = None))
      ∧ Seo.fetch_and_score_articles nltk_stopwords feedparser_parse clock
          feeds company_keywords = None
  end.
Proof.
  rewrite fetch_closed_form, fetched_stamped.
  destruct (forallb has_title_and_link (entries feeds)) eqn:Hwf.
  - assert (H := stamped_entries company_keywords 0 (entries feeds) Hwf).
    split; [exact H|]. split; [done|].
    rewrite (ranked_perm _). symmetry. by eapply Forall2_length.
  - split; [|done]. apply forallb_false_elem in Hwf as (e & He & Hf).
    exists e. split; [done|]. by apply has_title_and_link_false.
Qed.

End FetchMore.

Lemma score_bounded_witness :
  Seo.fetch_and_score_articles Demo.stopwords Demo.feedparser_parse
    Demo.clock Demo.feeds Demo.company_keywords
  = Some [Demo.undated_article; Demo.dated_article]
  ∧ Forall (λ a, score a ≤ size Demo.company_keywords
                 ∧ score a ≤ length (keywords a))
      [Demo.undated_article; Demo.dated_article].
Proof.
  assert (H : Seo.fetch_and_score_articles Demo.stopwords
                Demo.feedparser_parse Demo.clock Demo.feeds
                Demo.company_keywords
              = Some [Demo.undated_article; Demo.dated_article])
    by (vm_compute; reflexivity).
  split; [exact H|].
  exact (score_bounded Demo.stopwords Demo.feedparser_parse Demo.clock
           Demo.feeds Demo.company_keywords _ H).
Defined.

(* ===================================================================== *)
(** ** More on ranking *)
(* ===================================================================== *)

Lemma sorted_reverse_id {A K : Type} (key : A → K) (lt : K → K → bool) l :
  StronglySorted (λ x y, lt (key x) (key y) = false) l →
  Py.sorted_reverse key lt l = l.
Proof.
  induction 1 as [|x l _ IH Hx]; [done|].
  cbn [Py.sorted_reverse foldr]. fold (Py.sorted_reverse key lt l).
  rewrite IH. destruct l as [|y l]; [done|].
  cbn [Py.insert_desc]. apply Forall_cons in Hx as [Hxy _]. by rewrite Hxy.
Qed.

(** X8. Ranking a ranked list changes nothing. *)
Theorem ranked_idempotent (articles : list Article) :
  ranked (ranked articles) = ranked articles.
Proof.
  unfold ranked at 1. apply sorted_reverse_id.
  apply sorted_reverse_sorted; [apply tuple_lt_asym|apply tuple_lt_negtrans].
Qed.

(** X9. Relevance comes before recency: an article with a higher score is
    ranked in front of every article with a lower score, whatever their
    publish timestamps. *)
Theorem higher_score_ranks_first (articles : list Article) (a b : Article) :
  a ∈ articles → b ∈ articles → score b < score a →
  precedes a b (ranked articles).
Proof.
  intros Ha Hb Hlt. apply in_ranked in Ha, Hb.
  destruct (precedes_or a b (ranked articles) Ha Hb) as [H|H]; [|done|].
  { intros ->. lia. }
  apply (StronglySorted_precedes rank_ge) in H; [|apply ranked_sorted].
  unfold rank_ge in H. lia.
Qed.

Lemma higher_score_ranks_first_witness :
  precedes Demo.dated_article Demo.plain
           (ranked [Demo.plain; Demo.dated_article]).
Proof.
  apply (higher_score_ranks_first [Demo.plain; Demo.dated_article]
           Demo.dated_article Demo.plain).
  - apply list_elem_of_In. simpl. right. left. reflexivity.
  - apply list_elem_of_In. simpl. left. reflexivity.
  - simpl. lia.
Defined.

Section RankMore.
Variable nltk_stopwords : gset string.
Variable feedparser_parse : string -> list Entry.
Variable clock : nat -> Z.

(** X10. When the blog page cannot be fetched the reference set is empty,
    every score is 0 and the ranking is by recency alone: the articles come
    out by decreasing publish timestamp. *)
Theorem degraded_mode_ranks_by_recency feeds (scored_articles : list Article) :
  Seo.fetch_and_score_articles nltk_stopwords feedparser_parse clock feeds
    (Seo.get_existing_blog_keywords nltk_stopwords None)
  = Some scored_articles →
  StronglySorted (λ x y, (published y <= published x)%Z) scored_articles.
Proof.
  cbn [Seo.get_existing_blog_keywords]. intros Hf.
  assert (Hs : StronglySorted rank_ge scored_articles).
  { apply fetch_returned in Hf as [_ ->]. apply ranked_sorted. }
  eapply StronglySorted_weaken_in; [|exact Hs].
  intros x y Hx Hy Hxy.
  destruct (seo_fetch_made _ _ _ _ _ _ _ Hf Hx) as (e1 & d1 & _ & ->).
  destruct (seo_fetch_made _ _ _ _ _ _ _ Hf Hy) as (e2 & d2 & _ & ->).
  unfold rank_ge in Hxy. cbn [article_of score published] in *.
  rewrite !intersection_empty_r_L, size_empty in Hxy. lia.
Qed.

(** X11. Entries without a usable timestamp get successive readings of the
    clock, so with a clock that moves forward two such entries of equal
    score are ranked in reverse order of fetching: the one fetched later
    stands in front. *)
Theorem unparsed_entries_rank_in_reverse_fetch_order feeds
    (company_keywords : gset string) es1 e es2 e' es3
    (scored_articles : list Article) (a b : Article) :
  Seo.fetch_and_score_articles nltk_stopwords feedparser_parse clock
    feeds company_keywords = Some scored_articles →
  concat (map feedparser_parse feeds) = es1 ++ e :: es2 ++ e' :: es3 →
  e_published_parsed e = None → e_published_parsed e' = None →
  (∀ i j, i < j → (clock i < clock j)%Z) →
  Seo.make_article nltk_stopwords company_keywords e
    (clock (length (unparsed es1))) = Some a →
  Seo.make_article nltk_stopwords company_keywords e'
    (clock (length (unparsed es1) + S (length (unparsed es2)))) = Some b →
  score a = score b →
  precedes b a scored_articles.
Proof.
  intros Hfetch Hes He He' Hclock Hmka Hmkb Hscore.
  apply fetch_returned in Hfetch as [Hwf ->].
  set (r := ranked _).
  rewrite make_article_spec in Hmka, Hmkb.
  destruct (has_title_and_link e); [|done].
  destruct (has_title_and_link e'); [|done].
  injection Hmka as Hmka. injection Hmkb as Hmkb.
  assert (Hf : stamped nltk_stopwords clock company_keywords 0
                 (concat (map feedparser_parse feeds))
               = stamped nltk_stopwords clock company_keywords 0 es1
                 ++ a :: stamped nltk_stopwords clock company_keywords
                           (S (length (unparsed es1))) es2
                 ++ b :: stamped nltk_stopwords clock company_keywords
                           (S (length (unparsed es1)
                               + S (length (unparsed es2)))) es3).
  { rewrite Hes, stamped_app. cbn [stamped]. rewrite He.
    rewrite stamped_app. cbn [stamped]. rewrite He'. cbn [Nat.add].
    subst a b. repeat f_equal; lia. }
  assert (Ha : a ∈ r).
  { apply in_ranked. rewrite Hf. apply elem_of_app. right. by left. }
  assert (Hb : b ∈ r).
  { apply in_ranked. rewrite Hf. apply elem_of_app. right. right.
    apply elem_of_app. right. by left. }
  assert (Hpub : (published a < published b)%Z).
  { subst a b. cbn [article_of published]. apply Hclock. lia. }
  destruct (precedes_or b a r Hb Ha) as [H|H]; [|done|].
  { intros Heq. rewrite Heq in Hpub. lia. }
  apply (StronglySorted_precedes rank_ge) in H; [|apply ranked_sorted].
  unfold rank_ge in H. lia.
Qed.

End RankMore.

Lemma degraded_mode_ranks_by_recency_witness :
  Seo.fetch_and_score_articles Demo.stopwords Demo.feedparser_undated
    Demo.clock Demo.feeds (Seo.get_existing_blog_keywords Demo.stopwords None)
  = Some (map (λ ed, article_of Demo.stopwords ∅ ed.1 ed.2)
              [(Demo.undated_too, 201%Z); (Demo.undated, 200%Z);
               (Demo.dated, 100%Z)])
  ∧ StronglySorted (λ x y, (published y <= published x)%Z)
      (map (λ ed, article_of Demo.stopwords ∅ ed.1 ed.2)
           [(Demo.undated_too, 201%Z); (Demo.undated, 200%Z);
            (Demo.dated, 100%Z)]).
Proof.
  assert (H : Seo.fetch_and_score_articles Demo.stopwords
                Demo.feedparser_undated Demo.clock Demo.feeds
                (Seo.get_existing_blog_keywords Demo.stopwords None)
              = Some (map (λ ed, article_of Demo.stopwords ∅ ed.1 ed.2)
                          [(Demo.undated_too, 201%Z); (Demo.undated, 200%Z);
                           (Demo.dated, 100%Z)]))
    by (vm_compute; reflexivity).
  split; [exact H|].
  exact (degraded_mode_ranks_by_recency Demo.stopwords
           Demo.feedparser_undated Demo.clock Demo.feeds _ H).
Defined.

Lemma unparsed_entries_rank_in_reverse_fetch_order_witness :
  precedes
    (article_of Demo.stopwords ∅ Demo.undated_too (Demo.clock 1))
    (article_of Demo.stopwords ∅ Demo.undated (Demo.clock 0))
    (default [] (Seo.fetch_and_score_articles Demo.stopwords
                   Demo.feedparser_undated Demo.clock Demo.feeds ∅)).
Proof.
  apply (unparsed_entries_rank_in_reverse_fetch_order Demo.stopwords
           Demo.feedparser_undated Demo.clock Demo.feeds ∅
           [] Demo.undated [Demo.dated] Demo.undated_too []).
  - vm_compute. reflexivity.
  - reflexivity.
  - reflexivity.
  - reflexivity.
  - intros i j Hij. unfold Demo.clock. lia.
  - vm_compute. reflexivity.
  - vm_compute. reflexivity.
  - reflexivity.
Defined.

(* ===================================================================== *)
(** ** More on idea generation *)
(* ===================================================================== *)

Section GenerationMore.
Variable sent_tokenize : string -> option (list string).

#[local] Abbreviation good_sentences a :=
  (filter good_length (take 2 (sentences_of sent_tokenize a))).

(** X12. In src/seo.py and src/test.py the lower-casing [sent[0].lower()]
    never raises, since a sentence of more than 8 words is not empty: every
    one of the first two sentences with more than 8 and fewer than 20 words
    gives its question.  The title is appended only when it contains a lead
    phrase; these two scripts have no rewrite for other titles. *)
Theorem seo_and_test_ideas_of_an_article ideas ideas' (a : Article) :
  Seo.article_step sent_tokenize ideas a
  = ideas
    ++ (if Seo.title_matches (title a) then [title a] else [])
    ++ map question_seo (good_sentences a)
  ∧ Test.article_step sent_tokenize ideas' a
    = ideas'
      ++ (if Seo.title_matches (title a) then [(title a, link a)] else [])
      ++ map (λ sent, (question_seo sent, link a)) (good_sentences a).
Proof.
  change (Seo.title_matches (title a)) with (SeoNew.title_matches (title a)).
  split; [apply seo_article_step_shape|apply test_article_step_shape].
Qed.

Lemma seo_test_article_loop l acc :
  fold_left (Seo.article_step sent_tokenize) l (map fst acc)
  = map fst (fold_left (Test.article_step sent_tokenize) l acc).
Proof.
  revert acc. induction l as [|a l IH]; intros acc; [done|].
  cbn [fold_left]. rewrite <- IH. f_equal.
  rewrite seo_article_step_shape, test_article_step_shape.
  rewrite !map_app, map_map. cbn [fst]. do 2 f_equal.
  by destruct (SeoNew.title_matches (title a)).
Qed.

Lemma seo_generated_test_generated articles :
  Seo.generated sent_tokenize articles
  = map fst (Test.generated sent_tokenize articles).
Proof.
  unfold Seo.generated, Test.generated.
  by rewrite <- seo_test_article_loop.
Qed.

(** X13. src/test.py generates the ideas of src/seo.py, each with the link
    of its article. *)
Theorem seo_ideas_are_test_ideas_without_links articles :
  Seo.generated sent_tokenize articles
  = map fst (Test.generated sent_tokenize articles).
Proof.
  unfold Seo.generated, Test.generated.
  generalize (take NUM_ARTICLES_TO_SCAN articles). intros l.
  change (@nil string) with (map fst (@nil (string * string))).
  apply seo_test_article_loop.
Qed.

Lemma seonew_article_ideas_bounds a :
  let ideas := SeoNew.article_step sent_tokenize [] a in
  1 ≤ length ideas ≤ 4 ∧ Forall (λ p, p.2 = link a) ideas.
Proof.
  intros ideas. subst ideas. rewrite article_step_shape. cbn [app].
  assert (Hq : length (good_sentences a) ≤ 2).
  { etransitivity; [apply length_filter|]. rewrite length_take. lia. }
  rewrite length_app, length_map. unfold title_ideas. split.
  - destruct (SeoNew.title_matches (title a)); cbn [length]; lia.
  - apply Forall_app. split.
    + destruct (SeoNew.title_matches (title a)); repeat constructor.
    + apply Forall_forall. intros p Hp.
      by apply list_elem_of_fmap in Hp as (sent & -> & _).
Qed.

Lemma seonew_generated_bounds articles :
  let n := min NUM_ARTICLES_TO_SCAN (length articles) in
  let ideas := SeoNew.generated sent_tokenize articles in
  n ≤ length ideas ≤ 4 * n
  ∧ Forall (λ p, p.2 ∈ map link (take NUM_ARTICLES_TO_SCAN articles)) ideas.
Proof.
  intros n ideas. subst n ideas. rewrite generated_concat, <- length_take.
  induction (take NUM_ARTICLES_TO_SCAN articles) as [|a l [IHn IHl]].
  { simpl. split; [lia|constructor]. }
  destruct (seonew_article_ideas_bounds a) as [Hn Hl].
  cbn [map concat length]. rewrite length_app. split; [lia|].
  apply Forall_app. split.
  - eapply Forall_impl; [exact Hl|]. intros p ->. by left.
  - eapply Forall_impl; [exact IHl|]. intros p Hp. by right.
Qed.

(** X14. In src/seonew.py every scanned article gives between one and four
    ideas, so [n] scanned articles give between [n] and [4 n] ideas, and
    every idea carries the link of a scanned article; at most
    [NUM_ARTICLES_TO_SCAN] articles are scanned. *)
Theorem seonew_ideas_count_and_links articles :
  let n := min NUM_ARTICLES_TO_SCAN (length articles) in
  let ideas := SeoNew.generated sent_tokenize articles in
  n ≤ length ideas ≤ 4 * n
  ∧ Forall (λ p, p.2 ∈ map link (take NUM_ARTICLES_TO_SCAN articles)) ideas.
Proof.
  intros n ideas. subst n ideas. rewrite generated_concat, <- length_take.
  induction (take NUM_ARTICLES_TO_SCAN articles) as [|a l [IHn IHl]].
  { simpl. split; [lia|constructor]. }
  destruct (seonew_article_ideas_bounds a) as [Hn Hl].
  cbn [map concat length]. rewrite length_app. split; [lia|].
  apply Forall_app. split.
  - eapply Forall_impl; [exact Hl|]. intros p ->. by left.
  - eapply Forall_impl; [exact IHl|]. intros p Hp. by right.
Qed.

End GenerationMore.

(* ===================================================================== *)
(** ** [Counter] in closed form *)
(* ===================================================================== *)

Lemma counter_incr_fst x (c : Py.counter) :
  map fst (Py.counter_incr x c)
  = map fst c ++ (if bool_decide (x ∈ map fst c) then [] else [x]).
Proof.
  induction c as [|[y n] c IH]; cbn [Py.counter_incr map fst].
  { rewrite bool_decide_eq_false_2; [done|]. apply not_elem_of_nil. }
  destruct (bool_decide (x = y)) eqn:Hxy; cbn [map fst].
  - apply bool_decide_eq_true in Hxy as ->.
    rewrite bool_decide_eq_true_2 by (by left). by rewrite app_nil_r.
  - apply bool_decide_eq_false in Hxy. rewrite IH. cbn [app]. do 2 f_equal.
    rewrite (bool_decide_ext (x ∈ y :: map fst c) (x ∈ map fst c)); [done|].
    rewrite elem_of_cons. naive_solver.
Qed.

Lemma counter_fold_fst l (c : Py.counter) :
  map fst (fold_left (λ c x, Py.counter_incr x c) l c)
  = map fst c ++ first_seen (list_to_set (map fst c)) l.
Proof.
  revert c. induction l as [|x l IH]; intros c.
  { simpl. by rewrite app_nil_r. }
  cbn [fold_left first_seen]. rewrite IH, counter_incr_fst.
  destruct (decide (x ∈ map fst c)) as [Hin|Hin].
  - rewrite (bool_decide_eq_true_2 _ Hin), app_nil_r.
    rewrite bool_decide_eq_false_2; [done|].
    intros H. apply H. by apply elem_of_list_to_set.
  - rewrite (bool_decide_eq_false_2 _ Hin).
    rewrite bool_decide_eq_true_2
      by (intros H; by apply elem_of_list_to_set in H).
    rewrite <- app_assoc. cbn [app]. do 3 f_equal.
    rewrite list_to_set_app_L. set_solver.
Qed.

Lemma counter_by_keys (c : Py.counter) :
  NoDup (map fst c) → c = map (λ k, (k, Py.counter_get c k)) (map fst c).
Proof.
  induction c as [|[y n] c IH]; intros Hnd; [done|].
  cbn [map fst] in *. apply NoDup_cons in Hnd as [Hy Hnd].
  cbn [Py.counter_get]. rewrite bool_decide_eq_true_2 by done. f_equal.
  rewrite (IH Hnd) at 1. apply map_ext_in. intros k Hk.
  rewrite bool_decide_eq_false_2; [done|].
  intros ->. apply Hy. by apply list_elem_of_In.
Qed.

(** [Counter(l)] has the distinct elements of [l] as keys, in the order of
    their first occurrence, each with the number of its occurrences. *)
Lemma Counter_closed_form (l : list string) :
  Py.Counter l = map (λ k, (k, count k l)) (first_seen ∅ l).
Proof.
  rewrite (counter_by_keys (Py.Counter l)) by apply Counter_NoDup.
  unfold Py.Counter at 2. rewrite counter_fold_fst. cbn [map app].
  rewrite list_to_set_nil. apply map_ext. intros k.
  unfold Py.Counter. by rewrite counter_get_fold.
Qed.

Lemma first_seen_elem seen l x :
  x ∈ first_seen seen l → x ∈ l ∧ x ∉ seen.
Proof.
  revert seen. induction l as [|y l IH]; intros seen Hx.
  { by apply elem_of_nil in Hx. }
  cbn [first_seen] in Hx. case_bool_decide as Hy.
  - apply elem_of_cons in Hx as [->|Hx]; [split; [by left|done]|].
    apply IH in Hx as [Hx Hns]. split; [by right|set_solver].
  - apply IH in Hx as [Hx Hns]. split; [by right|done].
Qed.

Lemma first_seen_NoDup seen l : NoDup (first_seen seen l).
Proof.
  revert seen. induction l as [|y l IH]; intros seen; [constructor|].
  cbn [first_seen]. case_bool_decide; [|apply IH].
  constructor; [|apply IH]. intros Hin.
  apply first_seen_elem in Hin as [_ Hns]. set_solver.
Qed.

Lemma first_seen_set seen l :
  list_to_set (first_seen seen l) = (list_to_set l : gset string) ∖ seen.
Proof.
  revert seen. induction l as [|y l IH]; intros seen; [set_solver|].
  cbn [first_seen]. case_bool_decide as Hy.
  - rewrite !list_to_set_cons, IH. apply set_eq. intros x.
    destruct (decide (x = y)); set_solver.
  - rewrite list_to_set_cons, IH. set_solver.
Qed.

Lemma index_of_cons_ne y l x :
  y ≠ x → index_of x (y :: l) = S (index_of x l).
Proof. intros H. cbn [index_of]. by rewrite bool_decide_eq_false_2. Qed.

Lemma first_seen_sorted seen l :
  StronglySorted (λ x y, index_of x l < index_of y l) (first_seen seen l).
Proof.
  revert seen. induction l as [|z l IH]; intros seen; [constructor|].
  assert (Hshift : ∀ seen',
    (∀ x, x ∈ first_seen seen' l → x ≠ z) →
    StronglySorted (λ x y, index_of x (z :: l) < index_of y (z :: l))
                   (first_seen seen' l)).
  { intros seen' Hne.
    eapply StronglySorted_weaken_in; [|apply (IH seen')].
    intros x y Hx Hy Hxy. cbv beta in Hxy |- *.
    rewrite (index_of_cons_ne z l x), (index_of_cons_ne z l y); [lia| |].
    - intros E. by apply (Hne y Hy).
    - intros E. by apply (Hne x Hx). }
  cbn [first_seen]. case_bool_decide as Hz.
  - constructor.
    + apply Hshift. intros x Hx ->.
      apply first_seen_elem in Hx as [_ Hns]. set_solver.
    + apply Forall_forall. intros y Hy.
      apply first_seen_elem in Hy as [_ Hns].
      cbn [index_of]. rewrite bool_decide_eq_true_2 by done.
      rewrite bool_decide_eq_false_2; [lia|]. set_solver.
  - apply Hshift. intros x Hx ->.
    by apply first_seen_elem in Hx as [_ Hns].
Qed.

Lemma unique_from_first_seen cnt seen ideas :
  map (λ u, (idea_text u, snd u)) (unique_from cnt seen ideas)
  = map (λ k, (k, cnt k)) (first_seen seen (map fst ideas)).
Proof.
  revert seen. induction ideas as [|[idea link] ideas IH]; intros seen; [done|].
  cbn [unique_from map fst first_seen].
  case_bool_decide; [|apply IH]. cbn [map]. by rewrite IH.
Qed.

Lemma count_occurrences x ideas : count x (map fst ideas) = occurrences x ideas.
Proof.
  unfold count, occurrences.
  induction ideas as [|p ideas IH]; [done|].
  cbn [map]. rewrite !filter_cons.
  destruct (decide (p.1 = x)); simpl; by rewrite IH.
Qed.

(** The counter of the idea texts holds the entries of [unique_ordered]
    without their links. *)
Lemma Counter_unique_ordered ideas :
  Py.Counter (map fst ideas)
  = map (λ u, (idea_text u, snd u)) (SeoNew.unique_ordered ideas).
Proof.
  rewrite Counter_closed_form, unique_ordered_from, unique_from_first_seen.
  apply map_ext. intros k. by rewrite count_occurrences.
Qed.

Lemma insert_desc_map {A B K} (f : A → B) (key : A → K) (key' : B → K)
    (lt : K → K → bool) x l :
  (∀ x, key' (f x) = key x) →
  Py.insert_desc key' lt (f x) (map f l) = map f (Py.insert_desc key lt x l).
Proof.
  intros Hk. induction l as [|y l IH]; [done|].
  cbn [map Py.insert_desc]. rewrite !Hk.
  destruct (lt (key x) (key y)); [|done]. cbn [map]. by rewrite IH.
Qed.

Lemma sorted_reverse_map {A B K} (f : A → B) (key : A → K) (key' : B → K)
    (lt : K → K → bool) l :
  (∀ x, key' (f x) = key x) →
  Py.sorted_reverse key' lt (map f l) = map f (Py.sorted_reverse key lt l).
Proof.
  intros Hk. induction l as [|x l IH]; [done|].
  cbn [map Py.sorted_reverse foldr].
  fold (Py.sorted_reverse key' lt (map f l)). fold (Py.sorted_reverse key lt l).
  rewrite IH. by apply insert_desc_map.
Qed.

(** [Counter(texts).most_common(n)] of src/seo.py lists the idea texts that
    the dedup, sort and cut of src/seonew.py list, in the same order. *)
Lemma most_common_rank_ideas ideas :
  map fst (Py.most_common NUM_SUGGESTIONS (Py.Counter (map fst ideas)))
  = map fst (SeoNew.rank_ideas ideas).
Proof.
  unfold Py.most_common, SeoNew.rank_ideas.
  rewrite Counter_unique_ordered.
  rewrite (sorted_reverse_map (λ u, (idea_text u, snd u)) snd snd) by done.
  change map with (@fmap list _). rewrite <- fmap_take, <- !list_fmap_compose.
  done.
Qed.

(* ===================================================================== *)
(** ** More on deduplication and ranking of the ideas *)
(* ===================================================================== *)

Lemma unique_ordered_length ideas :
  length (SeoNew.unique_ordered ideas)
  = size (list_to_set (map fst ideas) : gset string).
Proof.
  rewrite unique_ordered_from.
  rewrite <- (length_map idea_text).
  rewrite <- (size_list_to_set (C := gset string))
    by apply unique_from_NoDup.
  rewrite unique_from_texts. f_equal. set_solver.
Qed.

Lemma rank_ideas_length ideas :
  length (SeoNew.rank_ideas ideas)
  = min NUM_SUGGESTIONS (size (list_to_set (map fst ideas) : gset string)).
Proof.
  unfold SeoNew.rank_ideas. rewrite length_map, length_take.
  by rewrite (sorted_reverse_perm snd Nat.ltb), unique_ordered_length.
Qed.

Lemma seonew_number_of_suggestions_aux
    (sent_tokenize : string -> option (list string)) articles :
  (SeoNew.suggest_seo_topics sent_tokenize articles = [] → length articles = 0)
  ∧ (articles = [] → SeoNew.suggest_seo_topics sent_tokenize articles = []).
Proof.
  split; [|by intros ->].
  intros Hs. apply (f_equal length) in Hs.
  unfold SeoNew.suggest_seo_topics in Hs. rewrite rank_ideas_length in Hs.
  destruct articles as [|a articles]; [done|]. exfalso.
  destruct (seonew_generated_bounds sent_tokenize (a :: articles))
    as [[Hlen _] _].
  cbn [length] in Hlen, Hs.
  destruct (SeoNew.generated sent_tokenize (a :: articles)) as [|p l].
  { unfold NUM_ARTICLES_TO_SCAN in Hlen. simpl in Hlen. lia. }
  cbn [map] in Hs. rewrite list_to_set_cons in Hs.
  assert (size ({[p.1]} ∪ list_to_set (map fst l) : gset string) ≠ 0).
  { intros H0. apply size_empty_inv in H0. set_solver. }
  unfold NUM_SUGGESTIONS in Hs. lia.
Qed.

(** X15. src/seonew.py returns as many suggestions as there are distinct
    idea texts, but at most [NUM_SUGGESTIONS]; it returns none only when it
    is given no article, since every article gives a title idea. *)
Theorem seonew_number_of_suggestions
    (sent_tokenize : string -> option (list string))
    (ideas : list (string * string)) (articles : list Article) :
  length (SeoNew.rank_ideas ideas)
  = min NUM_SUGGESTIONS (size (list_to_set (map fst ideas) : gset string))
  ∧ (length (SeoNew.suggest_seo_topics sent_tokenize articles) =? 0)
    = (length articles =? 0).
Proof.
  split; [apply rank_ideas_length|].
  unfold SeoNew.suggest_seo_topics. rewrite rank_ideas_length.
  destruct articles as [|a articles]; [reflexivity|].
  destruct (seonew_generated_bounds sent_tokenize (a :: articles))
    as [[Hlen _] _].
  cbn [length] in Hlen |- *.
  destruct (SeoNew.generated sent_tokenize (a :: articles)) as [|p l].
  { unfold NUM_ARTICLES_TO_SCAN in Hlen. simpl in Hlen. lia. }
  cbn [map]. rewrite list_to_set_cons.
  assert (size ({[p.1]} ∪ list_to_set (map fst l) : gset string) ≠ 0).
  { intros H0. apply size_empty_inv in H0. set_solver. }
  apply Nat.eqb_neq. unfold NUM_SUGGESTIONS. lia.
Qed.

(** X16. src/seo.py suggests the idea texts that the dedup, sort and cut of
    src/seonew.py select from the ideas of src/test.py, in the same order:
    [Counter(ideas).most_common(NUM_SUGGESTIONS)] ranks as the explicit
    loop and stable sort do. *)
Theorem seo_suggestions_are_seonew_ranking
    (sent_tokenize : string -> option (list string)) articles :
  Seo.suggest_seo_topics sent_tokenize articles
  = map fst (SeoNew.rank_ideas (Test.generated sent_tokenize articles)).
Proof.
  unfold Seo.suggest_seo_topics.
  by rewrite seo_generated_test_generated, most_common_rank_ideas.
Qed.

(** X17. src/test.py returns each idea text at most once, with the link of
    its first occurrence, in the order of first occurrence; it does not
    order by frequency. *)
Theorem test_suggestions_in_generation_order
    (sent_tokenize : string -> option (list string)) articles :
  let ideas := Test.generated sent_tokenize articles in
  let suggestions := Test.suggest_seo_topics sent_tokenize articles in
  NoDup (map fst suggestions)
  ∧ Forall (λ p, first_occurrence (fst p) (snd p) ideas) suggestions
  ∧ StronglySorted (λ p q, first_index (fst p) ideas < first_index (fst q) ideas)
                   suggestions.
Proof.
  intros ideas suggestions. subst suggestions.
  unfold Test.suggest_seo_topics. fold ideas. rewrite test_unique_ideas.
  split; [|split].
  - apply (sublist_NoDup _ (fst <$> (fst <$> SeoNew.unique_ordered ideas))).
    + rewrite <- list_fmap_compose, unique_ordered_from.
      apply unique_from_NoDup.
    + apply fmap_sublist, sublist_take.
  - apply Forall_forall. intros p Hp.
    apply elem_of_take_l, list_elem_of_fmap in Hp as (u & -> & Hu).
    by apply unique_ordered_elem in Hu as [_ ?].
  - apply StronglySorted_take, StronglySorted_map.
    rewrite unique_ordered_from. apply unique_from_sorted.
Qed.

(* ===================================================================== *)
(** ** Trending keywords *)
(* ===================================================================== *)

Lemma count_pos x l : x ∈ l → 0 < count x l.
Proof.
  intros Hx. unfold count.
  assert (Hin : x ∈ filter (λ y, y = x) l) by by apply list_elem_of_filter.
  destruct (filter (λ y, y = x) l); [by apply elem_of_nil in Hin|simpl; lia].
Qed.

(** X18. The trend list has at most 20 entries, no keyword twice; every
    entry carries the number of occurrences of its keyword among the
    keywords of the scanned articles, which is positive; the entries are
    in order of decreasing count, equal counts in the order in which the
    keywords first occur. *)
Theorem trending_keywords_counted_and_ordered (scored_articles : list Article) :
  let all_keywords :=
    concat (map keywords (take NUM_ARTICLES_TO_SCAN scored_articles)) in
  let trending := Seo.trending_keywords scored_articles in
  length trending ≤ 20
  ∧ NoDup (map fst trending)
  ∧ Forall (λ p, snd p = count (fst p) all_keywords ∧ 0 < snd p) trending
  ∧ StronglySorted
      (λ p q, snd q < snd p
              ∨ (snd p = snd q
                 ∧ index_of (fst p) all_keywords < index_of (fst q) all_keywords))
      trending.
Proof.
  intros all_keywords trending. subst trending.
  unfold Seo.trending_keywords, Py.most_common. fold all_keywords.
  set (sorted := Py.sorted_reverse snd Nat.ltb (Py.Counter all_keywords)).
  assert (Hperm : Permutation sorted (Py.Counter all_keywords))
    by apply sorted_reverse_perm.
  split; [rewrite length_take; lia|]. split; [|split].
  - apply (sublist_NoDup _ (fst <$> sorted)).
    + rewrite Hperm. apply Counter_NoDup.
    + apply fmap_sublist, sublist_take.
  - apply Forall_forall. intros [k n] Hp.
    apply elem_of_take_l in Hp. rewrite Hperm in Hp.
    pose proof (Counter_keys _ _ _ Hp) as Hk.
    apply Counter_counts in Hp. cbn [fst snd]. fold (count k all_keywords) in Hp.
    split; [done|]. rewrite Hp. by apply count_pos.
  - apply StronglySorted_take.
    eapply StronglySorted_weaken;
      [|apply (sorted_reverse_lex snd Nat.ltb ltb_asym ltb_negtrans
                 (λ p q, index_of (fst p) all_keywords
                         < index_of (fst q) all_keywords))].
    + intros p q [H|[H Hq]].
      * apply Nat.ltb_lt in H. by left.
      * apply Nat.ltb_ge in H.
        destruct (decide (snd p = snd q)); [right|left]; lia.
    + rewrite Counter_closed_form. apply StronglySorted_map. cbn [fst].
      apply first_seen_sorted.
Qed.

(* ===================================================================== *)
(** ** [main] *)
(* ===================================================================== *)

Section Main.
Variable nltk_stopwords : gset string.
Variable sent_tokenize : string -> option (list string).
Variable feedparser_parse : string -> list Entry.
Variable clock : nat -> Z.
Variable today : string.

Lemma fetch_nothing feeds ck :
  concat (map feedparser_parse feeds) = [] →
  Seo.fetch_and_score_articles nltk_stopwords feedparser_parse clock feeds ck
  = Some [].
Proof. intros H. by rewrite fetch_closed_form, H. Qed.

(** X19. src/seonew.py ends in one of three ways, whether or not the blog
    page could be fetched: the run raises exactly when some entry of the
    feeds has no title or no link; it returns without sending exactly when
    the feeds gave no entry at all; in every other case, at least one entry
    and all entries with title and link, it sends the report. *)
Theorem seonew_main_sends_iff_an_entry_was_fetched
    (build_email_content :
       list (string * string) -> list (string * nat) -> string)
    (page : option (list string * list string)) :
  let outcome :=
    SeoNew.main nltk_stopwords sent_tokenize feedparser_parse clock
      build_email_content today page in
  let entries := concat (map feedparser_parse FEEDS) in
  (outcome = Raised
   ↔ ∃ e, e ∈ entries ∧ (e_title e = None ∨ e_link e = None))
  ∧ (outcome = Returned ↔ entries = [])
  ∧ ((∃ body,
        outcome = Sent ("SEO Blog Topics for Abacus Digital - " +:+ today) body)
     ↔ entries ≠ []
       ∧ ∀ e, e ∈ entries → e_title e ≠ None ∧ e_link e ≠ None).
Proof.
  intros outcome entries. subst outcome.
  unfold SeoNew.main, SeoNew.fetch_and_score_articles.
  set (ck := Seo.get_existing_blog_keywords nltk_stopwords _).
  rewrite fetch_closed_form. fold entries.
  assert (Hall : forallb has_title_and_link entries = true
                 ↔ ∀ e, e ∈ entries → e_title e ≠ None ∧ e_link e ≠ None).
  { rewrite forallb_forall. split.
    - intros H e He. apply list_elem_of_In, H in He.
      unfold has_title_and_link in He.
      by destruct (e_title e), (e_link e).
    - intros H e He. apply list_elem_of_In, H in He as [Ht Hl].
      unfold has_title_and_link. by destruct (e_title e), (e_link e). }
  destruct (forallb has_title_and_link entries) eqn:Hwf.
  - assert (Hok := proj1 Hall eq_refl).
    set (scored := ranked (stamped nltk_stopwords clock ck 0 entries)).
    assert (Hlen : length scored = length entries).
    { subst scored. rewrite (ranked_perm _). symmetry.
      eapply Forall2_length, (stamped_entries _ _ _ _ _ Hwf). }
    destruct (seonew_number_of_suggestions_aux sent_tokenize scored)
      as [Hz Hnz].
    destruct (SeoNew.suggest_seo_topics sent_tokenize scored) as [|p l] eqn:Hs.
    + assert (He : entries = []).
      { apply length_zero_iff_nil. rewrite <- Hlen. by apply Hz. }
      split; [|split].
      * split; [done|]. intros (e & Hin & _). rewrite He in Hin.
        by apply elem_of_nil in Hin.
      * done.
      * split; [by intros (body & ?)|]. by intros [Hne _].
    + assert (He : entries ≠ []).
      { intros He. assert (scored = []) as Hsc.
        { apply length_zero_iff_nil. by rewrite Hlen, He. }
        discriminate (Hnz Hsc). }
      split; [|split].
      * split; [done|]. intros (e & Hin & Hno).
        destruct (Hok e Hin) as [Ht Hl]. by destruct Hno.
      * done.
      * split; [done|]. intros _. by eexists.
  - assert (Hbad : ∃ e, e ∈ entries ∧ (e_title e = None ∨ e_link e = None)).
    { apply forallb_false_elem in Hwf as (e & He & Hf).
      exists e. split; [done|]. by apply has_title_and_link_false. }
    split; [|split].
    + done.
    + split; [done|]. intros He. destruct Hbad as (e & Hin & _).
      rewrite He in Hin. by apply elem_of_nil in Hin.
    + split; [by intros (body & ?)|]. intros [_ Hok].
      destruct Hbad as (e & Hin & Hno). destruct (Hok e Hin). by destruct Hno.
Qed.

(** X20. When the feeds give no entry, no script sends a report. *)
Theorem no_entries_no_report
    (build_seo : list string -> list (string * nat) -> string)
    (build_test : list (string * string) -> list (string * nat) -> string)
    (page : option (list string * list string)) :
  concat (map feedparser_parse FEEDS) = [] →
  Seo.main nltk_stopwords sent_tokenize feedparser_parse clock
    build_seo today page = Returned
  ∧ Test.main nltk_stopwords sent_tokenize feedparser_parse clock
      build_test today page = Returned.
Proof.
  intros Hes. unfold Seo.main, Test.main.
  rewrite test_fetch_seo_fetch, !fetch_nothing by done. by split.
Qed.

End Main.

Lemma no_entries_no_report_witness :
  Seo.main Demo.stopwords Demo.sent_tokenize Demo.feedparser_nothing
    Demo.clock (λ _ _, "") "2024-01-01" None = Returned
  ∧ Test.main Demo.stopwords Demo.sent_tokenize Demo.feedparser_nothing
      Demo.clock (λ _ _, "") "2024-01-01" None = Returned.
Proof.
  apply (no_entries_no_report Demo.stopwords Demo.sent_tokenize
           Demo.feedparser_nothing Demo.clock "2024-01-01").
  reflexivity.
Defined.

(* ===================================================================== *)
(** ** The title test *)
(* ===================================================================== *)

(** X21. In the three scripts a title passes the test exactly when one of
    the nine lead phrases, put in lower case, occurs somewhere in the title
    put in lower case: letter case is ignored, and the phrase may stand
    anywhere, also inside a longer word. *)
Theorem title_test_is_case_insensitive_substring (t : string) :
  (Seo.title_matches t = true ↔
   ∃ starter, starter ∈ question_starters ++ list_starters
     ∧ ∃ pre post, Text.lower t = pre +:+ Text.lower starter +:+ post)
  ∧ SeoNew.title_matches t = Seo.title_matches t
  ∧ Test.title_matches t = Seo.title_matches t.
Proof.
  split; [|split; reflexivity].
  change (Seo.title_matches t) with (SeoNew.title_matches t).
  apply title_matches_spec.
Qed.
